(** * hw1/shell.c: the command-resolution and execution pipeline

    A shallow embedding of [src/hw1/shell.c].  C strings are modelled by
    their contents ([string]), [char*] values that may be NULL by
    [option string], array cells that may also be uninitialised by [slot].
    System calls are answered by an oracle record [os]; what the shell does
    to the outside world is logged as a list of [event]s in the [world].

    The model is value-level: a store into an array cell is kept at its
    index even when the index lies past the declared length of the array
    ([paths[32]], [args[tok_len]]), and string buffers hold whatever is
    concatenated into them ([redir_syn[1]], [redir_target[128]], the
    blocks obtained from [malloc]).  What such a store overwrites depends
    on the memory layout; lemmas [get_args_terminator_past_end] and
    [redir_syn_needs_two_bytes] record where the source writes past a
    declared capacity on every such line.  Where an overrun depends on the
    input, [run_cmd], which declares the buffers, is undefined: more than
    32 entries for [paths[32]], a target that does not fit
    [redir_target[128]], a resolved path whose terminating NUL falls
    outside the block that [malloc] handed out. *)

From Equations Require Import Equations.
From Stdlib Require Import String Ascii List ZArith Lia Bool Arith DecimalString.
Import ListNotations.
Open Scope string_scope.

(** ** C values *)

(** A cell of a [char*] array. *)
Inductive slot : Type :=
| Uninit                (* never written: indeterminate *)
| Null                  (* NULL *)
| Ptr (s : string).     (* pointer to a NUL-terminated string *)

Definition array := list slot.

(** [a[i] = v].  A store past the end lands in the cells that follow the
    array; whose cells those are is for the function that declared the
    array to say (see [paths_hold] in [run_cmd]). *)
Fixpoint store (a : array) (i : nat) (v : slot) : array :=
  match a, i with
  | [], O => [v]
  | [], S i' => Uninit :: store [] i' v
  | _ :: a', O => v :: a'
  | x :: a', S i' => x :: store a' i' v
  end.

(** [a[i]]; a cell that was never written is indeterminate. *)
Definition load (a : array) (i : nat) : slot := nth i a Uninit.

(** A [char] buffer: [None] while its contents are indeterminate. *)
Definition cbuf := option string.

(** Result of a computation that may run into undefined behaviour
    (a NULL or indeterminate pointer handed to the C library). *)
Inductive cres (A : Type) : Type :=
| Ok (a : A)
| Fault.
Arguments Ok {A} a.
Arguments Fault {A}.

(** ** string.h *)

Definition newline : string := String (ascii_of_nat 10) "".

Fixpoint is_delim (delim : string) (c : ascii) : bool :=
  match delim with
  | "" => false
  | String d delim' => Ascii.eqb d c || is_delim delim' c
  end.

(** [strtok] first skips the delimiters in front of the next token ... *)
Fixpoint skip_delims (delim s : string) : string :=
  match s with
  | "" => ""
  | String c s' => if is_delim delim c then skip_delims delim s' else s
  end.

(** ... then scans to the next delimiter, which it overwrites with NUL;
    the saved pointer is the character after it. *)
Fixpoint scan_token (delim s : string) : string * string :=
  match s with
  | "" => ("", "")
  | String c s' =>
      if is_delim delim c then ("", s')
      else let (tok, save) := scan_token delim s' in (String c tok, save)
  end.

(** [strtok_r]: the token and the new saved pointer, [None] for NULL.
    [str] is the string of the first call or the saved pointer of the
    previous one. *)
Definition strtok_r (str delim : string) : option (string * string) :=
  match skip_delims delim str with
  | "" => None
  | s => Some (scan_token delim s)
  end.

(** Every call of [strtok] moves the saved pointer forward; the loops
    below terminate for that reason. *)
Lemma skip_delims_length delim s :
  String.length (skip_delims delim s) <= String.length s.
Proof.
  induction s as [|c s IH]; simpl; [lia|].
  destruct (is_delim delim c); simpl; lia.
Qed.

Lemma scan_token_length delim s :
  String.length (snd (scan_token delim s)) <= String.length s.
Proof.
  induction s as [|c s IH]; simpl; [lia|].
  destruct (is_delim delim c); simpl; [lia|].
  destruct (scan_token delim s); simpl in *; lia.
Qed.

Lemma strtok_r_shorter str delim tok save :
  strtok_r str delim = Some (tok, save) ->
  String.length save < String.length str.
Proof.
  unfold strtok_r. intros H.
  pose proof (skip_delims_length delim str) as Hs.
  destruct (skip_delims delim str) as [|c s'] eqn:E; [discriminate|].
  injection H as H. simpl in H.
  destruct (is_delim delim c) eqn:Ed.
  - injection H as _ <-. simpl in Hs. lia.
  - pose proof (scan_token_length delim s') as Hl.
    destruct (scan_token delim s') as [t r]. injection H as _ <-.
    simpl in *. lia.
Qed.

(** ** get_env_paths (lines 117-127) *)

(** The [while (p != NULL)] loop: [p] is the pending token (with the
    pointer [strtok] saved when it returned it), [i] the next index. *)
Equations? get_env_paths_loop (p : option (string * string))
    (paths : array) (i : nat) : array * nat
    by wf (match p with None => 0 | Some (_, save) => S (String.length save) end) lt :=
  get_env_paths_loop None paths i := (paths, i);
  get_env_paths_loop (Some (tok, save)) paths i :=
    get_env_paths_loop (strtok_r save ":") (store paths i (Ptr tok)) (S i).
Proof.
  destruct (strtok_r save ":") as [[t r]|] eqn:E; [|lia].
  apply strtok_r_shorter in E. lia.
Qed.

(** [pathvar] is what [getenv("PATH")] returned.  [strdup(NULL)] reads
    through the null pointer. *)
Definition get_env_paths_of (pathvar : option string) (paths : array)
  : cres (array * nat) :=
  match pathvar with
  | None => Fault
  | Some pathvar => Ok (get_env_paths_loop (strtok_r pathvar ":") paths 0)
  end.

(** ** get_last_path_token (lines 130-141) *)

Definition inspect {A} (a : A) : {b : A | a = b} := exist _ a eq_refl.

(** The [while (tok != NULL)] loop; [cmd] starts out uninitialised and is
    assigned only when a further token is found. *)
Equations? get_last_path_token_loop (tok : option (string * string))
    (cmd : slot) : slot
    by wf (match tok with None => 0 | Some (_, ptr) => S (String.length ptr) end) lt :=
  get_last_path_token_loop None cmd := cmd;
  get_last_path_token_loop (Some (_, ptr)) cmd with inspect (strtok_r ptr "/") := {
    | exist _ None _ := cmd;                                   (* break *)
    | exist _ (Some (tok', ptr')) _ :=
        get_last_path_token_loop (Some (tok', ptr')) (Ptr tok') }.
Proof.
  apply strtok_r_shorter in e. lia.
Qed.

(** The copy of line 132-133 is made in a block of [strlen(path)] bytes,
    one short as well; see [block_holds]. *)
Definition get_last_path_token (path : string) : slot :=
  get_last_path_token_loop (strtok_r path "/") Uninit.

(** ** tokenizer.h *)

(** Modelled from the spec: the tokenizer ([tokenizer.h], [tokenizer.c])
    is not part of the sources.  The spec treats it as a black box that
    produces an ordered sequence of strings; [lookup] (line 84) guards
    against the NULL that [tokens_get_token] returns for an index outside
    the sequence. *)
Definition tokens := list string.

Definition tokens_get_length (t : tokens) : nat := List.length t.

Definition tokens_get_token (t : tokens) (n : nat) : option string :=
  nth_error t n.

(** ** get_args (lines 168-191) *)

(** The test of line 176. *)
Definition is_redir (token : string) : bool :=
  String.eqb ">" token || String.eqb "<" token.

(** The [for] loop; [n] counts the iterations left ([tok_len - i]).  The
    result is the value of [i] on leaving the loop. *)
Fixpoint get_args_loop (t : tokens) (n i : nat) (args : array)
    (redir_syn : cbuf) : cres (nat * array * cbuf) :=
  match n with
  | O => Ok (i, args, redir_syn)
  | S n' =>
      match tokens_get_token t i with
      | None => Fault                                  (* strcmp(">", NULL) *)
      | Some token =>
          if is_redir token
          then Ok (i, args, Some ("" ++ token))        (* break *)
          else get_args_loop t n' (S i) (store args i (Ptr token)) redir_syn
      end
  end.

(** [get_args] knows its out-parameters as pointers only; the sizes of the
    buffers behind them are those that [run_cmd] declares (see
    [target_holds]). *)
Definition get_args (t : tokens) (tok_len : nat) (args : array)
    (redir_syn redir_target : cbuf) : cres (array * cbuf * cbuf) :=
  match get_args_loop t tok_len 0 args redir_syn with
  | Fault => Fault
  | Ok (i, args, redir_syn) =>
      let args := store args i Null in
      if Nat.ltb i tok_len then
        match tokens_get_token t (i + 1)%nat with
        | None => Fault                                (* strcat(_, NULL) *)
        | Some target => Ok (args, redir_syn, Some ("" ++ target))
        end
      else Ok (args, redir_syn, redir_target)
  end.

(** What [execv] reads through its [argv] pointer. *)
Inductive argv : Type :=
| Argv (l : list string)        (* these strings, then NULL *)
| ArgvIndet (l : list string).  (* these strings, then an indeterminate cell *)

Fixpoint argv_view (args : array) : argv :=
  match args with
  | [] => ArgvIndet []
  | Uninit :: _ => ArgvIndet []
  | Null :: _ => Argv []
  | Ptr s :: rest =>
      match argv_view rest with
      | Argv l => Argv (s :: l)
      | ArgvIndet l => ArgvIndet (s :: l)
      end
  end.

(** ** The outside world *)

(** The calls the shell makes.  [Stdout] and [Stderr] are calls of
    [printf], [fprintf] and [perror]: they hand text to stdio, which
    writes it out when it flushes its buffer.  [ChildExit] is [exit] in the
    child; like every [exit] it flushes the stdio buffers, here the
    copies that the child inherited at [fork]. *)
Inductive event : Type :=
| Getenv (name : string)
| Access (path : string) (found : bool)
| Stdout (s : string)
| Stderr (s : string)
| Chdir (dir : option string) (ok : bool)
| Getcwd (ok : bool)
| Fork (ok : bool)
| ChildExecv (path : string) (a : argv) (ok : bool)  (* in the child *)
| ChildExit (status : Z)                              (* in the child *)
| Wait.

(** Answers of the operating system. *)
Record os : Type := {
  os_getenv : string -> option string;
  os_access : string -> string -> bool;         (* cwd, path: F_OK *)
  os_chdir  : string -> string -> option string;(* cwd, dir: the new cwd *)
  os_getcwd : string -> option string;          (* into a 1024-byte buffer *)
  os_strerror : string;                         (* what perror appends *)
  os_fork   : bool;
  os_execv  : string -> string -> argv -> bool; (* cwd, path, argv *)
  os_isatty : bool;
  os_malloc_usable_size : nat -> nat }.         (* bytes of a block of n *)

Record world : Type := { w_cwd : string; w_trace : list event }.

Inductive outcome (A : Type) : Type :=
| Done (a : A) (w : world)          (* the function returns *)
| Exited (status : Z) (w : world)   (* the shell calls exit *)
| Undefined (w : world).            (* undefined behaviour *)
Arguments Done {A} a w.
Arguments Exited {A} status w.
Arguments Undefined {A} w.

Definition M (A : Type) : Type := world -> outcome A.

Definition ret {A} (a : A) : M A := fun w => Done a w.

Definition bind {A B} (m : M A) (k : A -> M B) : M B :=
  fun w =>
    match m w with
    | Done a w' => k a w'
    | Exited st w' => Exited st w'
    | Undefined w' => Undefined w'
    end.

Notation "x <- m ;; k" := (bind m (fun x => k))
  (at level 61, m at next level, right associativity).
Notation "' pat <- m ;; k" := (bind m (fun x => match x with pat => k end))
  (at level 61, pat pattern, m at next level, right associativity).
Notation "m ;; k" := (bind m (fun _ => k))
  (at level 61, right associativity).

Definition emit (e : event) : M unit :=
  fun w => Done tt {| w_cwd := w_cwd w; w_trace := w_trace w ++ [e] |}.

Definition lift {A} (r : cres A) : M A :=
  fun w => match r with Ok a => Done a w | Fault => Undefined w end.

Definition undefined {A} : M A := fun w => Undefined w.

Definition outcome_world {A} (o : outcome A) : world :=
  match o with Done _ w | Exited _ w | Undefined w => w end.

Definition EXIT_SUCCESS : Z := 0.

(** ** The shell (lines 45-87 and 145-266) *)

(** Built-in commands: a function pointer is the name of its function. *)
Inductive cmd_fun_t : Type := Cmd_pwd | Cmd_cd | Cmd_help | Cmd_exit.

Record fun_desc_t : Type := {
  fd_fun : cmd_fun_t;
  fd_cmd : string;
  fd_doc : string }.

Definition cmd_table : list fun_desc_t :=
  [ {| fd_fun := Cmd_pwd;  fd_cmd := "pwd";  fd_doc := "print working directory" |};
    {| fd_fun := Cmd_cd;   fd_cmd := "cd";   fd_doc := "change directory" |};
    {| fd_fun := Cmd_help; fd_cmd := "?";    fd_doc := "show this help menu" |};
    {| fd_fun := Cmd_exit; fd_cmd := "exit"; fd_doc := "exit the command shell" |} ].

(** [lookup] (lines 82-87): the index of the first entry whose name
    [strcmp] finds equal to [cmd], or -1. *)
Fixpoint lookup_from (table : list fun_desc_t) (i : Z) (cmd : option string) : Z :=
  match table with
  | [] => (-1)%Z
  | d :: table' =>
      match cmd with
      | Some c => if String.eqb (fd_cmd d) c then i
                  else lookup_from table' (i + 1)%Z cmd
      | None => lookup_from table' (i + 1)%Z cmd
      end
  end.

Definition lookup (cmd : option string) : Z := lookup_from cmd_table 0%Z cmd.

Section Shell.

Variable sys : os.

(** *** System calls *)

Definition getenv (name : string) : M (option string) :=
  emit (Getenv name) ;; ret (os_getenv sys name).

Definition access (path : string) : M bool :=
  fun w =>
    let found := os_access sys (w_cwd w) path in
    Done found {| w_cwd := w_cwd w; w_trace := w_trace w ++ [Access path found] |}.

(** [chdir(NULL)] fails with EFAULT. *)
Definition chdir (dir : option string) : M bool :=
  fun w =>
    match dir with
    | None =>
        Done false {| w_cwd := w_cwd w; w_trace := w_trace w ++ [Chdir dir false] |}
    | Some d =>
        match os_chdir sys (w_cwd w) d with
        | Some cwd' =>
            Done true {| w_cwd := cwd'; w_trace := w_trace w ++ [Chdir dir true] |}
        | None =>
            Done false {| w_cwd := w_cwd w; w_trace := w_trace w ++ [Chdir dir false] |}
        end
    end.

Definition getcwd : M (option string) :=
  fun w =>
    let r := os_getcwd sys (w_cwd w) in
    Done r {| w_cwd := w_cwd w;
              w_trace := w_trace w ++ [Getcwd (match r with Some _ => true | None => false end)] |}.

Definition perror (s : string) : M unit :=
  emit (Stderr (s ++ ": " ++ os_strerror sys ++ newline)).

Definition exit {A} (status : Z) : M A := fun w => Exited status w.

Definition fork : M bool := emit (Fork (os_fork sys)) ;; ret (os_fork sys).

(** *** Built-ins (lines 52-79) *)

Fixpoint cmd_help_loop (table : list fun_desc_t) : M unit :=
  match table with
  | [] => ret tt
  | d :: table' =>
      emit (Stdout (fd_cmd d ++ " - " ++ fd_doc d ++ newline)) ;;
      cmd_help_loop table'
  end.

Definition cmd_help (_ : tokens) : M Z := cmd_help_loop cmd_table ;; ret 1%Z.

Definition cmd_exit (_ : tokens) : M Z := exit 0%Z.

Definition cmd_cd (t : tokens) : M Z :=
  let dir := tokens_get_token t 1 in
  chdir dir ;;
  ret 0%Z.

Definition cmd_pwd (_ : tokens) : M Z :=
  cwd <- getcwd ;;
  match cwd with
  | Some cwd => emit (Stdout (cwd ++ newline))
  | None => perror "getcwd() error"
  end ;;
  ret 0%Z.

Definition call (f : cmd_fun_t) : tokens -> M Z :=
  match f with
  | Cmd_pwd => cmd_pwd
  | Cmd_cd => cmd_cd
  | Cmd_help => cmd_help
  | Cmd_exit => cmd_exit
  end.

(** *** get_env_paths (lines 117-127) *)

Definition get_env_paths (paths : array) : M (array * nat) :=
  pathvar <- getenv "PATH" ;;
  lift (get_env_paths_of pathvar paths).

(** *** get_first_abs_path (lines 145-164) *)

(** [n] counts the iterations left ([env_path_len - i]).  [full_path] is
    the string built by the three [strcat]s; the block it is built in is
    one byte short (line 149), which [run_cmd] accounts for before it
    allocates again ([block_holds]). *)
Fixpoint get_first_abs_path_loop (paths : array) (cmd : string) (n i : nat)
  : M (option string) :=
  match n with
  | O => ret None
  | S n' =>
      match load paths i with
      | Ptr dir =>
          let full_path := "" ++ dir ++ "/" ++ cmd in
          found <- access full_path ;;
          if found then ret (Some full_path)
          else get_first_abs_path_loop paths cmd n' (S i)
      | _ => undefined                       (* strlen of no string *)
      end
  end.

Definition get_first_abs_path (paths : array) (env_path_len : nat)
    (cmd : string) : M (option string) :=
  get_first_abs_path_loop paths cmd env_path_len 0.

(** *** run_cmd (lines 194-232) *)

Record frame : Type := {
  f_args : array;
  f_redir_syn : cbuf;
  f_redir_target : cbuf }.

(** Lines 207-216: the locals of [run_cmd] when it reaches [fork]. *)
Definition run_cmd_frame (t : tokens) (tok_len : nat) (abs_cmd : string)
  : cres frame :=
  match get_args t tok_len (repeat Uninit tok_len) None None with
  | Fault => Fault
  | Ok (args, redir_syn, redir_target) =>
      let args := store args 0 (get_last_path_token abs_cmd) in
      let redir_syn := Some "" in                  (* redir_syn[0] = '\0' *)
      Ok {| f_args := args; f_redir_syn := redir_syn;
            f_redir_target := redir_target |}
  end.

(** Lines 220-221, run by the child: [execv] returns only when it failed.
    The [exit] that follows also flushes the child's copy of the stdio
    buffers; the log records the call. *)
Definition child (abs_cmd : string) (args : array) : M unit :=
  fun w =>
    let a := argv_view args in
    let ok := os_execv sys (w_cwd w) abs_cmd a in
    let w' := {| w_cwd := w_cwd w;
                 w_trace := w_trace w ++ [ChildExecv abs_cmd a ok] |} in
    if ok then Done tt w'
    else emit (ChildExit EXIT_SUCCESS) w'.

(** [paths[32]] holds the entries: entry 33 and the following ones are
    stored over the other locals of [run_cmd]. *)
Definition paths_hold (env_path_len : nat) : bool := Nat.leb env_path_len 32.

(** Lines 149 and 132 request [strlen] bytes for a path and its copy and
    write [strlen + 1]: the NUL must still fall inside the blocks. *)
Definition block_holds (path : string) : bool :=
  Nat.leb (S (String.length path)) (os_malloc_usable_size sys (String.length path)).

(** [redir_target[128]] holds a target of up to 127 bytes and its NUL. *)
Definition target_holds (redir_target : cbuf) : bool :=
  match redir_target with
  | Some target => Nat.leb (S (String.length target)) 128
  | None => true
  end.

Definition run_cmd (t : tokens) : M unit :=
  let tok_len := tokens_get_length t in
  if Nat.ltb 0 tok_len then
    match tokens_get_token t 0 with
    | None => undefined
    | Some cmd =>
        '(paths, env_path_len) <- get_env_paths (repeat Uninit 32) ;;
        if paths_hold env_path_len then
          abs_cmd <- get_first_abs_path paths env_path_len cmd ;;
          match abs_cmd with
          | Some abs_cmd =>
              if block_holds abs_cmd then
                fr <- lift (run_cmd_frame t tok_len abs_cmd) ;;
                if target_holds (f_redir_target fr) then
                  pid <- fork ;;
                  if pid then child abs_cmd (f_args fr) ;; emit Wait
                  else ret tt
                else undefined
              else undefined
          | None => emit (Stderr (cmd ++ ": command not found" ++ newline))
          end
        else undefined
    end
  else ret tt.

(** *** main (lines 244-263) *)

(** Lines 249-255. *)
Definition dispatch (t : tokens) : M unit :=
  let fundex := lookup (tokens_get_token t 0) in
  if Z.leb 0 fundex then
    match nth_error cmd_table (Z.to_nat fundex) with
    | Some d => call (fd_fun d) t ;; ret tt
    | None => undefined
    end
  else run_cmd t.

Definition INT_MAX : Z := 2147483647.

Definition string_of_Z (z : Z) : string := NilZero.string_of_int (Z.to_int z).

(** Lines 257-259: the prompt after a line, and the new [line_num]. *)
Definition next_prompt (line_num : Z) : M Z :=
  if os_isatty sys then
    if Z.ltb line_num INT_MAX then
      emit (Stdout (string_of_Z (line_num + 1) ++ ": ")) ;;
      ret (line_num + 1)%Z
    else undefined                              (* signed overflow *)
  else ret line_num.

(** The [while (fgets ...)] loop over the lines of the input, each already
    split into words by the tokenizer.  [init_shell] (terminal and job
    control set-up) is not modelled; [os_isatty] is the value it leaves in
    [shell_is_interactive]. *)
Fixpoint main_loop (lines : list tokens) (line_num : Z) : M Z :=
  match lines with
  | [] => ret 0%Z
  | t :: lines' =>
      dispatch t ;;
      line_num' <- next_prompt line_num ;;
      main_loop lines' line_num'
  end.

Definition main (lines : list tokens) : M Z :=
  (if os_isatty sys then emit (Stdout (string_of_Z 0 ++ ": ")) else ret tt) ;;
  main_loop lines 0%Z.

End Shell.

(** ** Reading a trace *)

(** [w] after the events [evs]. *)
Definition log (w : world) (evs : list event) : world :=
  {| w_cwd := w_cwd w; w_trace := w_trace w ++ evs |}.

(** The events logged between [w] and a later [w']. *)
Definition new_events (w w' : world) : list event :=
  skipn (List.length (w_trace w)) (w_trace w').

(** Events of search-path resolution and of process creation. *)
Definition is_external (e : event) : bool :=
  match e with
  | Getenv _ | Access _ _ | Fork _ | ChildExecv _ _ _ | ChildExit _ | Wait => true
  | _ => false
  end.

(** ** The words of the specification *)

(** Splitting on the characters of [delim], empty segments kept. *)
Fixpoint split_on (delim s : string) : list string :=
  match s with
  | "" => [""]
  | String c s' =>
      if is_delim delim c then "" :: split_on delim s'
      else match split_on delim s' with
           | seg :: segs => String c seg :: segs
           | [] => [String c ""]
           end
  end.

Definition nonempty (s : string) : bool :=
  match s with "" => false | _ => true end.

(** The non-empty segments, in order. *)
Definition segments (delim s : string) : list string :=
  filter nonempty (split_on delim s).

(** The first [m] cells hold the strings [done], [m] more are unwritten. *)
Definition cells (done : list string) (m : nat) : array :=
  (map Ptr done ++ repeat Uninit m)%list.

(** ** Vocabulary of the statements *)

(** The tokens that [strtok] is still to return: the pending one, then
    those of the saved pointer. *)
Definition pending (delim : string) (p : option (string * string)) : list string :=
  match p with
  | None => []
  | Some (tok, save) => tok :: segments delim save
  end.

(** No token of [l] is a redirection operator. *)
Definition no_redir (l : list string) : bool :=
  forallb (fun token => negb (is_redir token)) l.

(** The candidates [dir/cmd], in the order of the directories. *)
Definition candidates (dirs : list string) (cmd : string) : list string :=
  map (fun dir => dir ++ "/" ++ cmd) dirs.

(** The probes of a linear search: every candidate up to and including
    the first that exists. *)
Fixpoint probes (ex : string -> bool) (cands : list string) : list event :=
  match cands with
  | [] => []
  | p :: cands' => Access p (ex p) :: (if ex p then [] else probes ex cands')
  end.

(** Lines 207-227: what [run_cmd] does once the command is resolved. *)
Definition run_cmd_launch (sys : os) (t : tokens) (abs_cmd : string) : M unit :=
  if block_holds sys abs_cmd then
    fr <- lift (run_cmd_frame t (tokens_get_length t) abs_cmd) ;;
    if target_holds (f_redir_target fr) then
      pid <- fork sys ;;
      if pid then child sys abs_cmd (f_args fr) ;; emit Wait
      else ret tt
    else undefined
  else undefined.

(** No candidate of [dirs] exists. *)
Definition misses (ex : string -> bool) (cmd : string) (dirs : list string) : Prop :=
  Forall (fun dir => ex (dir ++ "/" ++ cmd) = false) dirs.

(** The probes of [dirs] when none of its candidates exists. *)
Definition missed (cmd : string) (dirs : list string) : list event :=
  map (fun dir => Access (dir ++ "/" ++ cmd) false) dirs.




(** A token of [n] letters. *)
Fixpoint letters (n : nat) : string :=
  match n with
  | O => ""
  | S n' => String "x" (letters n')
  end.

(** [s] contains a character of [delim]. *)
Fixpoint has_delim (delim s : string) : bool :=
  match s with
  | "" => false
  | String c s' => is_delim delim c || has_delim delim s'
  end.

(** A directory name that can be an entry of a search path. *)
Definition entry (d : string) : Prop :=
  nonempty d = true /\ has_delim ":" d = false.

(** The entries that [get_env_paths] reports: the first [i] cells. *)
Definition env_entries (r : outcome (array * nat)) : option (list slot) :=
  match r with
  | Done (paths, i) _ => Some (firstn i paths)
  | _ => None
  end.

(** ** Concrete systems *)

Definition mem (s : string) (l : list string) : bool := existsb (String.eqb s) l.

(** An allocator that hands out chunks of 32, 48, 64, ... bytes and keeps
    8 of them for itself: a block of [n] bytes has room for 24, 40, 56,
    ... bytes. *)
Definition chunk_usable_size (n : nat) : nat :=
  Nat.max 24 (16 * ((n + 8 + 15) / 16) - 8).

(** A system whose search path is [path], where the files [files] exist,
    the files [programs] can be executed and the directories [folders]
    can be entered. *)
Definition demo_os (path : option string) (files programs folders : list string) : os :=
  {| os_getenv := fun name => if String.eqb name "PATH" then path else None;
     os_access := fun _ p => mem p files;
     os_chdir := fun _ d => if mem d folders then Some d else None;
     os_getcwd := fun cwd => Some cwd;
     os_strerror := "No such file or directory";
     os_fork := true;
     os_execv := fun _ p _ => mem p programs;
     os_isatty := false;
     os_malloc_usable_size := chunk_usable_size |}.

(** The directories [/d0], ..., [/d(n-1)], and the search path that lists
    them. *)
Definition numbered_dirs (n : nat) : list string :=
  map (fun k => "/d" ++ NilZero.string_of_int (Z.to_int (Z.of_nat k))) (seq 0 n).

Definition numbered_path (n : nat) : string := String.concat ":" (numbered_dirs n).

(** The shell is started in [/home]; nothing has happened yet. *)
Definition w0 : world := {| w_cwd := "/home"; w_trace := [] |}.

(** [cmd] is in both directories of the search path. *)
Definition os_a_b : os :=
  demo_os (Some "/a:/b") ["/a/cmd"; "/b/cmd"] ["/a/cmd"; "/b/cmd"] [].

(** [pwd] is also a program on the search path. *)
Definition os_bin_pwd : os :=
  demo_os (Some "/bin") ["/bin/pwd"] ["/bin/pwd"] [].

(** [sys] with a chosen answer of [fork] and of [isatty]. *)
Definition with_fork_isatty (sys : os) (forks tty : bool) : os :=
  {| os_getenv := os_getenv sys;
     os_access := os_access sys;
     os_chdir := os_chdir sys;
     os_getcwd := os_getcwd sys;
     os_strerror := os_strerror sys;
     os_fork := forks;
     os_execv := os_execv sys;
     os_isatty := tty;
     os_malloc_usable_size := os_malloc_usable_size sys |}.

(** The line that [cmd_help] prints for a table entry. *)
Definition help_line (d : fun_desc_t) : event :=
  Stdout (fd_cmd d ++ " - " ++ fd_doc d ++ newline).

(** The prompt that carries the number [n]. *)
Definition prompt (n : Z) : event := Stdout (string_of_Z n ++ ": ").

(** The prompts numbered [n+1], ..., [n+k]. *)
Fixpoint prompts_after (n : Z) (k : nat) : list event :=
  match k with
  | O => []
  | S k' => prompt (n + 1) :: prompts_after (n + 1) k'
  end.

(** The events of lines 218-227: [fork], then the child and [wait]. *)
Definition launch_events (forks : bool) (child_evs : list event) : list event :=
  if forks then (Fork true :: child_evs ++ [Wait])%list else [Fork false].

(** An event of [run_cmd] names no file but [dir/cmd] for a directory of
    the search path; what is executed was found to exist. *)
Definition on_search_path (ex : string -> bool) (dirs : list string) (cmd : string)
    (e : event) : Prop :=
  match e with
  | Access p found =>
      found = ex p /\ exists dir, In dir dirs /\ p = dir ++ "/" ++ cmd
  | ChildExecv p _ _ =>
      ex p = true /\ exists dir, In dir dirs /\ p = dir ++ "/" ++ cmd
  | _ => True
  end.

(** What the child of a launch does, in events. *)
Definition child_events (sys : os) (cwd abs_cmd : string) (a : argv) : list event :=
  if os_execv sys cwd abs_cmd a
  then [ChildExecv abs_cmd a true]
  else [ChildExecv abs_cmd a false; ChildExit EXIT_SUCCESS].

(** ** Arrays *)

Lemma store_cells done m v :
  store (cells done m) (List.length done) v
  = (map Ptr done ++ v :: repeat Uninit (pred m))%list.
Proof.
  unfold cells. induction done as [|x done IH]; simpl.
  - destruct m; reflexivity.
  - now rewrite IH.
Qed.

Lemma store_cells_ptr done m s :
  store (cells done m) (List.length done) (Ptr s) = cells (done ++ [s]) (pred m).
Proof.
  rewrite store_cells. unfold cells.
  now rewrite map_app, <- app_assoc.
Qed.

Lemma load_cells done s rest :
  load (map Ptr done ++ Ptr s :: rest)%list (List.length done) = Ptr s.
Proof.
  unfold load. induction done as [|x done IH]; simpl; auto.
Qed.

Lemma cells_nil m : cells [] m = repeat Uninit m.
Proof. reflexivity. Qed.

Lemma firstn_cells done m :
  firstn (List.length done) (cells done m) = map Ptr done.
Proof.
  unfold cells. rewrite <- (length_map Ptr done) at 1.
  rewrite firstn_app, Nat.sub_diag, firstn_all. simpl. apply app_nil_r.
Qed.

(** ** strtok returns the non-empty segments *)

Lemma scan_token_split delim s :
  exists segs,
    split_on delim s = fst (scan_token delim s) :: segs /\
    filter nonempty segs = segments delim (snd (scan_token delim s)).
Proof.
  induction s as [|c s IH]; simpl.
  - exists []. split; reflexivity.
  - destruct (is_delim delim c) eqn:E; simpl.
    + exists (split_on delim s). split; reflexivity.
    + destruct IH as (segs & Hs & Hf).
      destruct (scan_token delim s) as [t r]. simpl in *.
      rewrite Hs. exists segs. split; [reflexivity|exact Hf].
Qed.

Lemma skip_delims_segments delim s :
  segments delim (skip_delims delim s) = segments delim s.
Proof.
  unfold segments. induction s as [|c s IH]; simpl; [reflexivity|].
  destruct (is_delim delim c) eqn:E; simpl; [exact IH|].
  rewrite E. reflexivity.
Qed.

Lemma skip_delims_head delim s c s' :
  skip_delims delim s = String c s' -> is_delim delim c = false.
Proof.
  induction s as [|a s IH]; simpl; [discriminate|].
  destruct (is_delim delim a) eqn:E; [exact IH|].
  intros H. injection H as <- _. exact E.
Qed.

Lemma strtok_r_segments delim s :
  pending delim (strtok_r s delim) = segments delim s.
Proof.
  unfold strtok_r. rewrite <- (skip_delims_segments delim s).
  destruct (skip_delims delim s) as [|c s'] eqn:E; [reflexivity|].
  pose proof (skip_delims_head _ _ _ _ E) as Hc.
  destruct (scan_token_split delim (String c s')) as (segs & Hs & Hf).
  unfold pending, segments at 2. rewrite Hs. 
  destruct (scan_token delim (String c s')) as [t r] eqn:Et. simpl in *.
  rewrite Hc in Et.
  destruct (scan_token delim s') as [t' r']. injection Et as <- <-.
  simpl. now rewrite Hf.
Qed.

Lemma get_env_paths_loop_spec n : forall p (done : list string) m,
  List.length (pending ":" p) <= n ->
  get_env_paths_loop p (cells done m) (List.length done)
  = (cells (done ++ pending ":" p)%list (m - List.length (pending ":" p)),
     List.length (done ++ pending ":" p)%list).
Proof.
  induction n as [|n IH]; intros p done m Hn.
  - destruct p as [[tok save]|]; simpl in Hn; [lia|].
    simp get_env_paths_loop. simpl. now rewrite app_nil_r, Nat.sub_0_r.
  - destruct p as [[tok save]|].
    + simp get_env_paths_loop. rewrite store_cells_ptr.
      replace (S (List.length done)) with (List.length (done ++ [tok]))
        by (rewrite length_app; simpl; lia).
      simpl in Hn. rewrite IH by (rewrite strtok_r_segments; lia).
      rewrite strtok_r_segments. simpl.
      rewrite <- app_assoc. simpl.
      f_equal. f_equal. lia.
    + simp get_env_paths_loop. simpl. now rewrite app_nil_r, Nat.sub_0_r.
Qed.

Lemma get_env_paths_of_spec raw m :
  get_env_paths_of (Some raw) (repeat Uninit m)
  = Ok (cells (segments ":" raw) (m - List.length (segments ":" raw)),
        List.length (segments ":" raw)).
Proof.
  unfold get_env_paths_of. rewrite <- cells_nil.
  change 0 with (List.length (@nil string)).
  rewrite (get_env_paths_loop_spec _ _ _ _ (le_n _)).
  now rewrite strtok_r_segments.
Qed.

(** ** get_last_path_token *)

Lemma last_cons {A} (l : list A) (x d : A) : last (x :: l) d = last l x.
Proof.
  revert x d. induction l as [|y l IH]; intros x d; [reflexivity|].
  change (last (x :: y :: l) d) with (last (y :: l) d).
  rewrite IH. symmetry. apply IH.
Qed.

Lemma get_last_path_token_loop_spec n : forall p cmd,
  List.length (pending "/" p) <= n ->
  get_last_path_token_loop p cmd
  = last (map Ptr (tl (pending "/" p))) cmd.
Proof.
  induction n as [|n IH]; intros p cmd Hn.
  - destruct p as [[tok save]|]; simpl in Hn; [lia|].
    now simp get_last_path_token_loop.
  - destruct p as [[tok save]|]; [|now simp get_last_path_token_loop].
    simp get_last_path_token_loop. simpl in *.
    rewrite <- (strtok_r_segments "/" save) in *.
    destruct (strtok_r save "/") as [[tok' save']|] eqn:E; simpl in *.
    + rewrite IH by (simpl; lia).
      cbn [pending tl map].
      destruct (map Ptr (segments "/" save')) as [|x l]; [reflexivity|].
      now rewrite !last_cons.
    + reflexivity.
Qed.

(** The base name is the last segment when the path has at least two
    non-empty segments, and indeterminate otherwise. *)
Lemma get_last_path_token_spec path :
  get_last_path_token path
  = last (map Ptr (tl (segments "/" path))) Uninit.
Proof.
  unfold get_last_path_token.
  rewrite (get_last_path_token_loop_spec _ _ _ (le_n _)).
  now rewrite strtok_r_segments.
Qed.

(** ** get_args *)

Lemma get_args_loop_pre : forall (pre done tail : list string) n m syn,
  no_redir pre = true ->
  get_args_loop (done ++ pre ++ tail)%list (List.length pre + n)
    (List.length done) (cells done m) syn
  = get_args_loop (done ++ pre ++ tail)%list n
      (List.length (done ++ pre)%list) (cells (done ++ pre)%list (m - List.length pre)) syn.
Proof.
  induction pre as [|a pre IH]; intros done tail n m syn Hp; simpl.
  - now rewrite app_nil_r, Nat.sub_0_r.
  - simpl in Hp. apply andb_true_iff in Hp as [Ha Hp].
    unfold tokens_get_token.
    rewrite nth_error_app2, Nat.sub_diag by lia. simpl.
    apply negb_true_iff in Ha. rewrite Ha.
    rewrite store_cells_ptr.
    replace (S (List.length done)) with (List.length (done ++ [a]))
      by (rewrite length_app; simpl; lia).
    replace (done ++ a :: pre ++ tail)%list with ((done ++ [a]) ++ pre ++ tail)%list
      by (now rewrite <- app_assoc).
    rewrite IH by exact Hp.
    rewrite <- !app_assoc. simpl.
    f_equal. f_equal. lia.
Qed.

(** Without a redirection token every token is captured and the
    terminator goes to index [tok_len]. *)
Lemma get_args_plain t rs rt :
  no_redir t = true ->
  get_args t (List.length t) (repeat Uninit (List.length t)) rs rt
  = Ok ((map Ptr t ++ [Null])%list, rs, rt).
Proof.
  intros Ht. unfold get_args.
  pose proof (get_args_loop_pre t [] [] 0 (List.length t) rs Ht) as H.
  simpl in H. rewrite app_nil_r, Nat.add_0_r, Nat.sub_diag in H.
  rewrite <- cells_nil, H. simpl.
  rewrite store_cells. simpl. rewrite Nat.ltb_irrefl. reflexivity.
Qed.

(** A redirection token followed by a target. *)
Lemma get_args_loop_redirect (pre : list string) op tail rs :
  no_redir pre = true -> is_redir op = true ->
  let t := (pre ++ op :: tail)%list in
  get_args_loop t (List.length t) 0 (repeat Uninit (List.length t)) rs
  = Ok (List.length pre, cells pre (S (List.length tail)), Some op).
Proof.
  intros Hp Hop t.
  assert (Ht : List.length t = List.length pre + S (List.length tail)).
  { unfold t. rewrite length_app. simpl. lia. }
  pose proof (get_args_loop_pre pre [] (op :: tail)
                (S (List.length tail)) (List.length t) rs Hp) as H.
  simpl in H. fold t in H. rewrite cells_nil in H.
  transitivity (get_args_loop t (List.length pre + S (List.length tail)) 0
                  (repeat Uninit (List.length t)) rs).
  { now rewrite <- Ht. }
  rewrite H. unfold tokens_get_token, t.
  rewrite nth_error_app2, Nat.sub_diag by lia. simpl. rewrite Hop.
  rewrite length_app. simpl.
  replace (List.length pre + S (List.length tail) - List.length pre)
    with (S (List.length tail)) by lia.
  reflexivity.
Qed.

Lemma get_args_redirect (pre : list string) op target rest rs rt :
  no_redir pre = true -> is_redir op = true ->
  let t := (pre ++ op :: target :: rest)%list in
  get_args t (List.length t) (repeat Uninit (List.length t)) rs rt
  = Ok ((map Ptr pre ++ Null :: repeat Uninit (S (List.length rest)))%list,
        Some op, Some target).
Proof.
  intros Hp Hop t. unfold get_args.
  unfold t. rewrite (get_args_loop_redirect pre op (target :: rest) rs Hp Hop).
  rewrite store_cells.
  destruct (Nat.ltb_spec (List.length pre)
              (List.length (pre ++ op :: target :: rest)%list)) as [_|Hl];
    [|rewrite length_app in Hl; simpl in Hl; lia].
  unfold tokens_get_token. rewrite nth_error_app2 by lia.
  replace (List.length pre + 1 - List.length pre) with 1 by lia.
  reflexivity.
Qed.

(** A redirection token with nothing after it: the guard of line 186
    holds and [strcat] is handed the NULL of token [i+1]. *)
Lemma get_args_trailing_redirect (pre : list string) op rs rt :
  no_redir pre = true -> is_redir op = true ->
  let t := (pre ++ [op])%list in
  get_args t (List.length t) (repeat Uninit (List.length t)) rs rt = Fault.
Proof.
  intros Hp Hop t. unfold get_args.
  unfold t. rewrite (get_args_loop_redirect pre op [] rs Hp Hop).
  destruct (Nat.ltb_spec (List.length pre)
              (List.length (pre ++ [op])%list)) as [_|Hl];
    [|rewrite length_app in Hl; simpl in Hl; lia].
  unfold tokens_get_token.
  destruct (nth_error (pre ++ [op]) (List.length pre + 1)) eqn:E; [|reflexivity].
  assert (List.length pre + 1 < List.length (pre ++ [op])%list) as Hlt
    by (apply nth_error_Some; congruence).
  rewrite length_app in Hlt. simpl in Hlt. lia.
Qed.

(** ** Traces *)

Lemma log_log w a b : log (log w a) b = log w (a ++ b).
Proof. unfold log. simpl. now rewrite app_assoc. Qed.

Lemma new_events_log w evs : new_events w (log w evs) = evs.
Proof.
  unfold new_events, log. simpl.
  rewrite skipn_app, Nat.sub_diag, skipn_all. reflexivity.
Qed.

Lemma log_cwd w evs : w_cwd (log w evs) = w_cwd w.
Proof. reflexivity. Qed.

Section ShellFacts.

Variable sys : os.

Lemma emit_log e w : emit e w = Done tt (log w [e]).
Proof. reflexivity. Qed.

Lemma access_log p w :
  access sys p w
  = Done (os_access sys (w_cwd w) p) (log w [Access p (os_access sys (w_cwd w) p)]).
Proof. reflexivity. Qed.

Lemma get_first_abs_path_loop_spec cmd junk : forall (dirs done : list string) w,
  get_first_abs_path_loop sys (map Ptr done ++ map Ptr dirs ++ junk)%list cmd
    (List.length dirs) (List.length done) w
  = Done (find (os_access sys (w_cwd w)) (candidates dirs cmd))
         (log w (probes (os_access sys (w_cwd w)) (candidates dirs cmd))).
Proof.
  induction dirs as [|d dirs IH]; intros done w.
  - simpl. unfold ret, log. rewrite app_nil_r. now destruct w.
  - cbn [List.length get_first_abs_path_loop map app candidates find probes].
    rewrite load_cells. unfold bind. rewrite access_log. cbn [String.append].
    destruct (os_access sys (w_cwd w) (d ++ String "/" cmd)) eqn:E.
    + reflexivity.
    + replace (S (List.length done)) with (List.length (done ++ [d])%list)
        by (rewrite length_app; simpl; lia).
      replace (map Ptr done ++ Ptr d :: map Ptr dirs ++ junk)%list
        with (map Ptr (done ++ [d]) ++ map Ptr dirs ++ junk)%list
        by (now rewrite map_app, <- app_assoc).
      rewrite IH, log_cwd, log_log. reflexivity.
Qed.

(** Resolution over the cells that [get_env_paths] filled. *)
Lemma get_first_abs_path_cells (dirs : list string) m cmd w :
  get_first_abs_path sys (cells dirs m) (List.length dirs) cmd w
  = Done (find (os_access sys (w_cwd w)) (candidates dirs cmd))
         (log w (probes (os_access sys (w_cwd w)) (candidates dirs cmd))).
Proof.
  unfold get_first_abs_path, cells.
  apply (get_first_abs_path_loop_spec cmd (repeat Uninit m) dirs []).
Qed.

(** [run_cmd] on a non-empty line when PATH is set. *)
Lemma run_cmd_unfold cmd (rest : list string) raw w :
  os_getenv sys "PATH" = Some raw ->
  let dirs := segments ":" raw in
  let ex := os_access sys (w_cwd w) in
  let w1 := log w (Getenv "PATH" :: probes ex (candidates dirs cmd)) in
  run_cmd sys (cmd :: rest) w
  = if paths_hold (List.length dirs) then
      match find ex (candidates dirs cmd) with
      | Some abs_cmd => run_cmd_launch sys (cmd :: rest) abs_cmd w1
      | None => Done tt (log w1 [Stderr (cmd ++ ": command not found" ++ newline)])
      end
    else Undefined (log w [Getenv "PATH"]).
Proof.
  intros Hp dirs ex w1. unfold run_cmd.
  cbn [tokens_get_length List.length Nat.ltb Nat.leb tokens_get_token nth_error].
  unfold bind at 1. unfold get_env_paths, bind at 1. unfold getenv, bind at 1.
  rewrite emit_log. unfold ret at 1. rewrite Hp.
  rewrite get_env_paths_of_spec. unfold lift at 1. fold dirs.
  destruct (paths_hold (List.length dirs)); [|reflexivity].
  unfold bind at 1. rewrite get_first_abs_path_cells, log_cwd, log_log.
  fold ex. simpl app. fold w1.
  destruct (find ex (candidates dirs cmd)) as [abs|].
  - reflexivity.
  - rewrite emit_log. reflexivity.
Qed.

End ShellFacts.

(** ** Process replacement fails: the child's exit status *)

Lemma child_exec_failure sys abs_cmd args w :
  os_execv sys (w_cwd w) abs_cmd (argv_view args) = false ->
  child sys abs_cmd args w
  = Done tt (log w [ChildExecv abs_cmd (argv_view args) false;
                    ChildExit EXIT_SUCCESS]).
Proof.
  intros H. unfold child. rewrite H, emit_log. unfold log. simpl.
  now rewrite <- app_assoc.
Qed.

(** C1.  The claim: when the child's process-image replacement fails, the
    child terminates with a non-success exit status.  The code: line 221
    ends the child with [exit(EXIT_SUCCESS)], status 0.  Here
    [/bin/notes.txt] exists and cannot be executed; the child of
    [notes.txt] exits with status 0, the status of success. *)
Theorem run_cmd_failed_execv_exits_with_success :
  run_cmd (demo_os (Some "/bin") ["/bin/notes.txt"] [] []) ["notes.txt"] w0
  = Done tt (log w0 [Getenv "PATH"; Access "/bin/notes.txt" true; Fork true;
                     ChildExecv "/bin/notes.txt" (Argv ["notes.txt"]) false;
                     ChildExit 0; Wait])
  /\ EXIT_SUCCESS = 0%Z.
Proof. split; reflexivity. Qed.

(** ** PATH is not set *)

Lemma get_env_paths_unset sys paths w :
  os_getenv sys "PATH" = None ->
  get_env_paths sys paths w = Undefined (log w [Getenv "PATH"]).
Proof.
  intros H. unfold get_env_paths, getenv, bind. rewrite emit_log.
  unfold ret. rewrite H. reflexivity.
Qed.

(** C5.  The claim: with PATH unset, [get_env_paths] returns an empty list
    of directories and resolution finds nothing.  The code: line 118 hands
    the NULL of [getenv] to [strdup], which reads through it; neither
    [get_env_paths] nor [run_cmd] returns. *)
Theorem get_env_paths_unset_PATH_is_undefined :
  get_env_paths (demo_os None [] [] []) (repeat Uninit 32) w0
  = Undefined (log w0 [Getenv "PATH"])
  /\ run_cmd (demo_os None [] [] []) ["ls"] w0
     = Undefined (log w0 [Getenv "PATH"]).
Proof. split; reflexivity. Qed.

(** ** A redirection token at the end of the line *)

(** C6.  The claim: a trailing ["<"] or [">"] is tolerated, target
    extraction is skipped and no token is accessed out of range.  The code:
    the loop leaves [i] at the operator, so the guard [i < tok_len] of line
    186 holds, token [i+1] is requested past the end and its NULL is handed
    to [strcat]. *)
Theorem get_args_trailing_redirect_is_undefined :
  get_args ["cat"; ">"] 2 (repeat Uninit 2) None None = Fault
  /\ get_args_loop ["cat"; ">"] 2 0 (repeat Uninit 2) None
     = Ok (1, [Ptr "cat"; Uninit], Some ">")
  /\ Nat.ltb 1 2 = true
  /\ tokens_get_token ["cat"; ">"] (1 + 1) = None
  /\ run_cmd (demo_os (Some "/bin") ["/bin/cat"] ["/bin/cat"] []) ["cat"; ">"] w0
     = Undefined (log w0 [Getenv "PATH"; Access "/bin/cat" true]).
Proof. repeat split; reflexivity. Qed.

(** ** Element 0 of the argument vector *)

Lemma argv_view_terminated (l : list string) junk :
  argv_view (map Ptr l ++ Null :: junk)%list = Argv l.
Proof.
  induction l as [|x l IH]; [reflexivity|].
  cbn [map app argv_view]. now rewrite IH.
Qed.

(** What holds: a line without redirection tokens, resolved to a path of at
    least two non-empty segments, is launched with the last segment as
    element 0, followed by the remaining tokens and the terminator. *)
Lemma run_cmd_frame_plain cmd (rest : list string) abs_cmd seg segs :
  no_redir (cmd :: rest) = true ->
  tl (segments "/" abs_cmd) = seg :: segs ->
  exists fr,
    run_cmd_frame (cmd :: rest) (S (List.length rest)) abs_cmd = Ok fr /\
    f_args fr = (Ptr (last segs seg) :: map Ptr rest ++ [Null])%list /\
    argv_view (f_args fr) = Argv (last segs seg :: rest).
Proof.
  intros Hn Hs. unfold run_cmd_frame.
  change (S (List.length rest)) with (List.length (cmd :: rest)).
  rewrite (get_args_plain _ None None Hn).
  rewrite get_last_path_token_spec, Hs. cbn [map]. rewrite last_cons.
  eexists. split; [reflexivity|]. cbn [f_args map app store].
  assert (Hl : last (map Ptr segs) (Ptr seg) = Ptr (last segs seg)).
  { clear. revert seg. induction segs as [|x l IH]; intros seg; [reflexivity|].
    change (last (map Ptr (x :: l)) (Ptr seg)) with (last (Ptr x :: map Ptr l) (Ptr seg)).
    rewrite !last_cons. apply IH. }
  rewrite Hl. split; [reflexivity|].
  cbn [argv_view]. now rewrite argv_view_terminated.
Qed.

Example run_cmd_frame_wc :
  run_cmd_frame ["wc"; "-l"] 2 "/usr/bin/wc"
  = Ok {| f_args := [Ptr "wc"; Ptr "-l"; Null];
          f_redir_syn := Some ""; f_redir_target := None |}.
Proof. reflexivity. Qed.

(** C7.  The claim: for every resolved command, element 0 of the launched
    vector is the last segment of the resolved path.  The code: [cmd] of
    [get_last_path_token] is assigned only from the second segment on
    (line 138), so a path with a single segment returns it uninitialised.
    With the root directory on the search path, [vprog -x] resolves to
    [//vprog] and the child is launched with whatever the unassigned local
    holds as element 0, not with the base name [vprog]. *)
Theorem run_cmd_single_segment_argv0_indeterminate :
  get_last_path_token "//vprog" = Uninit
  /\ run_cmd_frame ["vprog"; "-x"] 2 "//vprog"
     = Ok {| f_args := [Uninit; Ptr "-x"; Null];
             f_redir_syn := Some ""; f_redir_target := None |}
  /\ run_cmd (demo_os (Some "/") ["//vprog"] ["//vprog"] []) ["vprog"; "-x"] w0
     = Done tt (log w0 [Getenv "PATH"; Access "//vprog" true; Fork true;
                        ChildExecv "//vprog" (ArgvIndet []) true; Wait]).
Proof. repeat split; reflexivity. Qed.

(** ** cd *)

(** C10.  [cmd_cd] returns 0 for every token sequence and every system:
    when token 1 is absent (the change then fails), when the directory
    change fails (the working directory is kept) and when it succeeds.
    Its only event is the [chdir] call; nothing is printed. *)
Theorem cmd_cd_returns_0 (sys : os) (t : tokens) (w : world) :
  exists ok cwd',
    cmd_cd sys t w
    = Done 0%Z {| w_cwd := cwd';
                  w_trace := w_trace w ++ [Chdir (tokens_get_token t 1) ok] |}
    /\ (ok = true \/ cwd' = w_cwd w)
    /\ (ok = false \/ exists dir, tokens_get_token t 1 = Some dir).
Proof.
  unfold cmd_cd, bind, chdir, ret.
  destruct (tokens_get_token t 1) as [d|].
  - destruct (os_chdir sys (w_cwd w) d) as [c|].
    + exists true, c. repeat split; eauto.
    + exists false, (w_cwd w). repeat split; eauto.
  - exists false, (w_cwd w). repeat split; eauto.
Qed.

(** ** Resolution *)

Lemma find_candidates ex cmd (dirs : list string) :
  match find ex (candidates dirs cmd) with
  | Some p =>
      exists before dir after,
        dirs = (before ++ dir :: after)%list /\ p = dir ++ "/" ++ cmd /\
        ex p = true /\ misses ex cmd before /\
        probes ex (candidates dirs cmd) = (missed cmd before ++ [Access p true])%list
  | None =>
      misses ex cmd dirs /\ probes ex (candidates dirs cmd) = missed cmd dirs
  end.
Proof.
  induction dirs as [|d dirs IH]; cbn [candidates map find probes].
  - split; [constructor|reflexivity].
  - fold (candidates dirs cmd).
    destruct (ex (d ++ "/" ++ cmd)) eqn:E.
    + exists [], d, dirs. repeat split; auto. constructor.
    + destruct (find ex (candidates dirs cmd)) as [p|].
      * destruct IH as (before & dir & after & -> & -> & Hex & Hm & Hp).
        exists (d :: before), dir, after. repeat split; auto.
        -- constructor; assumption.
        -- cbn [missed map app]. now rewrite Hp.
      * destruct IH as [Hm Hp]. split.
        -- constructor; assumption.
        -- cbn [missed map]. now rewrite Hp.
Qed.

(** C3.  [get_first_abs_path] probes [dir/cmd] for the directories in list
    order and returns the first candidate that exists (existence is all
    [access] is asked); it returns NULL exactly when every candidate is
    missing.  With ["/a"] before ["/b"] and the file in both, the ["/a"]
    path is returned. *)
Theorem get_first_abs_path_first_existing
    (sys : os) (dirs : list string) (cmd : string) (w : world) :
  let ex := os_access sys (w_cwd w) in
  let found := find ex (candidates dirs cmd) in
  get_first_abs_path sys (map Ptr dirs) (List.length dirs) cmd w
  = Done found (log w (probes ex (candidates dirs cmd)))
  /\ match found with
     | Some p =>
         exists before dir after,
           dirs = (before ++ dir :: after)%list /\ p = dir ++ "/" ++ cmd /\
           ex p = true /\ misses ex cmd before /\
           probes ex (candidates dirs cmd) = (missed cmd before ++ [Access p true])%list
     | None =>
         misses ex cmd dirs /\ probes ex (candidates dirs cmd) = missed cmd dirs
     end
  /\ (dirs = ["/a"; "/b"] -> ex ("/a/" ++ cmd) = true -> ex ("/b/" ++ cmd) = true ->
      found = Some ("/a/" ++ cmd)).
Proof.
  intros ex found. split; [|split].
  - unfold get_first_abs_path.
    pose proof (get_first_abs_path_loop_spec sys cmd [] dirs [] w) as H.
    cbn [map app List.length] in H. rewrite app_nil_r in H. exact H.
  - apply find_candidates.
  - intros -> Ha _. unfold found. cbn [candidates map find].
    change ("/a" ++ "/" ++ cmd) with ("/a/" ++ cmd). now rewrite Ha.
Qed.

Lemma get_first_abs_path_first_existing_witness :
  os_access os_a_b (w_cwd w0) ("/a/" ++ "cmd") = true
  /\ os_access os_a_b (w_cwd w0) ("/b/" ++ "cmd") = true
  /\ find (os_access os_a_b (w_cwd w0)) (candidates ["/a"; "/b"] "cmd")
     = Some ("/a/" ++ "cmd").
Proof.
  split; [reflexivity|]. split; [reflexivity|].
  apply (proj2 (proj2 (get_first_abs_path_first_existing os_a_b ["/a"; "/b"] "cmd" w0)));
    reflexivity.
Defined.

(** ** Command not found *)



Lemma dispatch_external sys t w :
  lookup (tokens_get_token t 0) = (-1)%Z -> dispatch sys t w = run_cmd sys t w.
Proof. intros H. unfold dispatch. now rewrite H. Qed.




(** ** Dispatch *)

Lemma lookup_builtin name :
  In name ["pwd"; "cd"; "?"; "exit"] ->
  exists d, nth_error cmd_table (Z.to_nat (lookup (Some name))) = Some d
            /\ fd_cmd d = name /\ (0 <=? lookup (Some name))%Z = true.
Proof.
  intros [<-|[<-|[<-|[<-|[]]]]]; eexists; repeat split; reflexivity.
Qed.

Lemma lookup_unmatched name :
  ~ In name ["pwd"; "cd"; "?"; "exit"] -> lookup (Some name) = (-1)%Z.
Proof.
  intros H. unfold lookup, cmd_table. cbn [lookup_from fd_cmd].
  repeat match goal with
         | |- context [String.eqb ?a name] =>
             destruct (String.eqb_spec a name) as [E|_];
             [exfalso; apply H; rewrite <- E; simpl; tauto|]
         end.
  reflexivity.
Qed.

(** A built-in leaves no event of resolution or of process creation. *)
Lemma call_internal sys f t w :
  exists evs,
    w_trace (outcome_world (call sys f t w)) = (w_trace w ++ evs)%list
    /\ Forall (fun e => is_external e = false) evs.
Proof.
  destruct f; cbn [call].
  - unfold cmd_pwd, bind, getcwd.
    destruct (os_getcwd sys (w_cwd w)) as [c|]; cbn.
    + eexists. rewrite <- app_assoc. split; [reflexivity|].
      repeat constructor.
    + eexists. rewrite <- app_assoc. split; [reflexivity|].
      repeat constructor.
  - unfold cmd_cd, bind, chdir.
    destruct (tokens_get_token t 1) as [d|]; [destruct (os_chdir sys (w_cwd w) d)|];
      cbn; eexists; (split; [reflexivity|repeat constructor]).
  - cbn. eexists. rewrite <- !app_assoc. split; [reflexivity|].
    repeat constructor.
  - exists []. cbn. rewrite app_nil_r. split; [reflexivity|constructor].
Qed.

Lemma new_events_app w w' evs :
  w_trace w' = (w_trace w ++ evs)%list -> new_events w w' = evs.
Proof.
  intros H. unfold new_events. rewrite H.
  rewrite skipn_app, Nat.sub_diag, skipn_all. reflexivity.
Qed.

Lemma outcome_world_ignore {A} (m : M A) w :
  outcome_world ((m ;; ret tt) w) = outcome_world (m w).
Proof. unfold bind, ret. now destruct (m w). Qed.

(** C9.  A line whose first token is, letter for letter, one of ["pwd"],
    ["cd"], ["?"], ["exit"] runs that entry of the table and logs no event
    of search-path resolution or process creation, whatever files the
    system has.  [lookup] answers -1 for NULL and for every other name
    (["PWD"] among them), and [main] then calls [run_cmd]. *)
Theorem dispatch_builtin_before_external (sys : os) (t : tokens) (w : world) :
  (forall name,
      tokens_get_token t 0 = Some name -> In name ["pwd"; "cd"; "?"; "exit"] ->
      exists d,
        nth_error cmd_table (Z.to_nat (lookup (Some name))) = Some d
        /\ fd_cmd d = name
        /\ dispatch sys t w = (call sys (fd_fun d) t ;; ret tt) w
        /\ Forall (fun e => is_external e = false)
             (new_events w (outcome_world (dispatch sys t w))))
  /\ lookup None = (-1)%Z
  /\ lookup (Some "PWD") = (-1)%Z
  /\ (forall name, ~ In name ["pwd"; "cd"; "?"; "exit"] -> lookup (Some name) = (-1)%Z)
  /\ (lookup (tokens_get_token t 0) = (-1)%Z -> dispatch sys t w = run_cmd sys t w).
Proof.
  split; [|split; [reflexivity|split; [reflexivity|split]]].
  - intros name Ht Hin.
    destruct (lookup_builtin name Hin) as (d & Hd & Hn & Hpos).
    exists d. split; [exact Hd|]. split; [exact Hn|].
    assert (Hdis : dispatch sys t w = (call sys (fd_fun d) t ;; ret tt) w).
    { unfold dispatch. rewrite Ht, Hpos, Hd. reflexivity. }
    split; [exact Hdis|].
    rewrite Hdis, outcome_world_ignore.
    destruct (call_internal sys (fd_fun d) t w) as (evs & Htr & Hev).
    now rewrite (new_events_app _ _ _ Htr).
  - apply lookup_unmatched.
  - apply dispatch_external.
Qed.

Lemma dispatch_builtin_before_external_witness :
  tokens_get_token ["pwd"] 0 = Some "pwd"
  /\ In "pwd" ["pwd"; "cd"; "?"; "exit"]
  /\ exists d,
       nth_error cmd_table (Z.to_nat (lookup (Some "pwd"))) = Some d
       /\ fd_cmd d = "pwd"
       /\ dispatch os_bin_pwd ["pwd"] w0 = (call os_bin_pwd (fd_fun d) ["pwd"] ;; ret tt) w0
       /\ Forall (fun e => is_external e = false)
            (new_events w0 (outcome_world (dispatch os_bin_pwd ["pwd"] w0))).
Proof.
  split; [reflexivity|]. split; [simpl; auto|].
  apply (proj1 (dispatch_builtin_before_external os_bin_pwd ["pwd"] w0) "pwd");
    [reflexivity|simpl; auto].
Defined.

Example dispatch_pwd_trace :
  dispatch os_bin_pwd ["pwd"] w0
  = Done tt (log w0 [Getcwd true; Stdout ("/home" ++ newline)])
  /\ run_cmd os_bin_pwd ["pwd"] w0
     = Done tt (log w0 [Getenv "PATH"; Access "/bin/pwd" true; Fork true;
                        ChildExecv "/bin/pwd" (Argv ["pwd"]) true; Wait]).
Proof. split; reflexivity. Qed.

(** ** Redirection *)


Lemma is_redir_cases op : is_redir op = true -> op = "<" \/ op = ">".
Proof.
  unfold is_redir. intros H. apply orb_true_iff in H as [H|H];
    apply String.eqb_eq in H; auto.
Qed.




Lemma run_cmd_frame_redirect (pre : list string) op target rest abs_cmd :
  no_redir pre = true -> is_redir op = true ->
  let t := (pre ++ op :: target :: rest)%list in
  run_cmd_frame t (List.length t) abs_cmd
  = Ok {| f_args := store (map Ptr pre ++ Null :: repeat Uninit (S (List.length rest)))%list
                      0 (get_last_path_token abs_cmd);
          f_redir_syn := Some "";
          f_redir_target := Some target |}.
Proof.
  intros Hp Hop t. unfold run_cmd_frame, t.
  now rewrite (get_args_redirect pre op target rest None None Hp Hop).
Qed.




Example get_args_cat :
  get_args ["cat"; "file.txt"; ">"; "out.txt"] 4 (repeat Uninit 4) None None
  = Ok ([Ptr "cat"; Ptr "file.txt"; Null; Uninit], Some ">", Some "out.txt")
  /\ run_cmd (demo_os (Some "/bin") ["/bin/cat"] ["/bin/cat"] [])
       ["cat"; "file.txt"; ">"; "out.txt"] w0
     = Done tt (log w0 [Getenv "PATH"; Access "/bin/cat" true; Fork true;
                        ChildExecv "/bin/cat" (Argv ["cat"; "file.txt"]) true; Wait]).
Proof. split; reflexivity. Qed.

(** ** Splitting the search path *)

Lemma split_on_no_delim delim d :
  has_delim delim d = false -> split_on delim d = [d].
Proof.
  induction d as [|c d IH]; cbn [has_delim split_on]; [reflexivity|].
  intros H. apply orb_false_iff in H as [Hc Hd].
  now rewrite Hc, (IH Hd).
Qed.

Lemma split_on_app delim d c s :
  has_delim delim d = false -> is_delim delim c = true ->
  split_on delim (d ++ String c s) = d :: split_on delim s.
Proof.
  intros Hd Hc. induction d as [|a d IH]; cbn [String.append split_on].
  - now rewrite Hc.
  - cbn [has_delim] in Hd. apply orb_false_iff in Hd as [Ha Hd].
    now rewrite Ha, (IH Hd).
Qed.

Lemma segments_concat (dirs : list string) :
  Forall entry dirs -> segments ":" (String.concat ":" dirs) = dirs.
Proof.
  unfold segments. induction 1 as [|d dirs [Hn Hd] Hdirs IH]; [reflexivity|].
  destruct dirs as [|d' dirs].
  - cbn [String.concat]. rewrite (split_on_no_delim _ _ Hd).
    cbn [filter]. now rewrite Hn.
  - change (String.concat ":" (d :: d' :: dirs))
      with (d ++ String ":" (String.concat ":" (d' :: dirs))).
    rewrite (split_on_app ":" d ":" _ Hd eq_refl).
    cbn [filter]. now rewrite Hn, IH.
Qed.

Lemma get_env_paths_set sys raw w :
  os_getenv sys "PATH" = Some raw ->
  get_env_paths sys (repeat Uninit 32) w
  = Done (cells (segments ":" raw) (32 - List.length (segments ":" raw)),
          List.length (segments ":" raw))
         (log w [Getenv "PATH"]).
Proof.
  intros H. unfold get_env_paths, getenv, bind. rewrite emit_log.
  unfold ret. rewrite H, get_env_paths_of_spec. reflexivity.
Qed.

(** C4, as the claim states it: the entries for ["/a::/b"] would be
    ["/a"], [""], ["/b"].  [strtok] skips every run of separators, so the
    code reports two entries. *)
Lemma get_env_paths_drops_empty_segment :
  split_on ":" "/a::/b" = ["/a"; ""; "/b"]
  /\ env_entries (get_env_paths (demo_os (Some "/a::/b") [] [] []) (repeat Uninit 32) w0)
     = Some [Ptr "/a"; Ptr "/b"]
  /\ env_entries (get_env_paths (demo_os (Some "/a::/b") [] [] []) (repeat Uninit 32) w0)
     <> Some (map Ptr (split_on ":" "/a::/b")).
Proof. repeat split; try reflexivity. discriminate. Qed.

(** C4, amended.  The entries of [get_env_paths] are, in order, the
    non-empty segments of the search path split on [':'] (empty segments
    are dropped); entries are not deduplicated: a list of non-empty,
    colon-free names joined by [':'] comes back as it is, repetitions
    included. *)
Theorem get_env_paths_nonempty_segments
    (sys : os) (raw : string) (dirs : list string) (w : world) :
  os_getenv sys "PATH" = Some raw ->
  env_entries (get_env_paths sys (repeat Uninit 32) w)
  = Some (map Ptr (filter nonempty (split_on ":" raw)))
  /\ (Forall entry dirs -> raw = String.concat ":" dirs ->
      env_entries (get_env_paths sys (repeat Uninit 32) w) = Some (map Ptr dirs)).
Proof.
  intros H. rewrite (get_env_paths_set sys raw w H). cbn [env_entries].
  rewrite firstn_cells. split; [reflexivity|].
  intros Hd ->. now rewrite (segments_concat dirs Hd).
Qed.

Lemma get_env_paths_nonempty_segments_witness :
  os_getenv (demo_os (Some "/a:/b:/a") [] [] []) "PATH" = Some "/a:/b:/a"
  /\ Forall entry ["/a"; "/b"; "/a"]
  /\ "/a:/b:/a" = String.concat ":" ["/a"; "/b"; "/a"]
  /\ env_entries (get_env_paths (demo_os (Some "/a:/b:/a") [] [] []) (repeat Uninit 32) w0)
     = Some (map Ptr ["/a"; "/b"; "/a"]).
Proof.
  assert (He : Forall entry ["/a"; "/b"; "/a"]).
  { repeat constructor. }
  split; [reflexivity|]. split; [exact He|]. split; [reflexivity|].
  apply (proj2 (get_env_paths_nonempty_segments
                  (demo_os (Some "/a:/b:/a") [] [] []) "/a:/b:/a"
                  ["/a"; "/b"; "/a"] w0 eq_refl) He eq_refl).
Defined.

(** ** Declared capacities *)

(** [args] is declared with [tok_len] cells; without a redirection token
    the terminator of line 184 is cell [tok_len], one past them. *)
Lemma get_args_terminator_past_end (t : tokens) :
  no_redir t = true ->
  exists args,
    get_args t (tokens_get_length t) (repeat Uninit (tokens_get_length t)) None None
    = Ok (args, None, None)
    /\ load args (tokens_get_length t) = Null
    /\ List.length args = S (tokens_get_length t).
Proof.
  intros H. unfold tokens_get_length. rewrite (get_args_plain t None None H).
  eexists. split; [reflexivity|]. split.
  - unfold load. rewrite app_nth2; rewrite length_map; [|lia].
    now rewrite Nat.sub_diag.
  - rewrite length_app, length_map. simpl. lia.
Qed.

(** [redir_syn] is declared with one byte; the operator and its NUL are
    two. *)
Lemma redir_syn_needs_two_bytes op :
  is_redir op = true -> String.length op + 1 = 2.
Proof. intros H. destruct (is_redir_cases op H) as [->| ->]; reflexivity. Qed.

(** * Further properties of the shell *)

(** ** lookup *)

Lemma lookup_from_spec (table : list fun_desc_t) c : forall i,
  (exists before d after,
      table = (before ++ d :: after)%list /\ fd_cmd d = c
      /\ Forall (fun d' => fd_cmd d' <> c) before
      /\ lookup_from table i (Some c) = (i + Z.of_nat (List.length before))%Z)
  \/ (Forall (fun d' => fd_cmd d' <> c) table
      /\ lookup_from table i (Some c) = (-1)%Z).
Proof.
  induction table as [|d table IH]; intros i.
  - right. split; [constructor|reflexivity].
  - cbn [lookup_from]. destruct (String.eqb_spec (fd_cmd d) c) as [E|E].
    + left. exists [], d, table. repeat split; auto. simpl. lia.
    + destruct (IH (i + 1)%Z) as [(before & d' & after & -> & Hd & Hb & Hl)|[Hn Hl]].
      * left. exists (d :: before), d', after. repeat split; auto.
        rewrite Hl. cbn [List.length]. lia.
      * right. split; [constructor; assumption|exact Hl].
Qed.

(** [lookup_from] over any table, counting from 0: for a NULL name the
    answer is -1; for a name it is the index of the first entry with that
    name, and -1 when no entry has it. *)
Theorem lookup_from_first_match (table : list fun_desc_t) (c : string) :
  lookup_from table 0%Z None = (-1)%Z
  /\ ((exists before d after,
         table = (before ++ d :: after)%list /\ fd_cmd d = c
         /\ Forall (fun d' => fd_cmd d' <> c) before
         /\ lookup_from table 0%Z (Some c) = Z.of_nat (List.length before)
         /\ nth_error table (Z.to_nat (lookup_from table 0%Z (Some c))) = Some d)
      \/ (Forall (fun d' => fd_cmd d' <> c) table
          /\ lookup_from table 0%Z (Some c) = (-1)%Z)).
Proof.
  split.
  - generalize 0%Z. induction table as [|d table IH]; intros i; [reflexivity|].
    cbn [lookup_from]. apply IH.
  - destruct (lookup_from_spec table c 0%Z)
      as [(before & d & after & -> & Hd & Hb & Hl)|H]; [left|right; exact H].
    exists before, d, after. repeat split; auto.
    rewrite Hl, Z.add_0_l, Nat2Z.id, nth_error_app2, Nat.sub_diag by lia.
    reflexivity.
Qed.

(** ** Lines that start no program *)

(** An empty line does nothing: no event is logged, nothing is printed for
    it, and the loop goes on to the prompt and the next line. *)
Theorem dispatch_empty_line (sys : os) (lines : list tokens) (line_num : Z) (w : world) :
  run_cmd sys [] w = Done tt w
  /\ dispatch sys [] w = Done tt w
  /\ main_loop sys ([] :: lines) line_num w
     = (line_num' <- next_prompt sys line_num ;;
        main_loop sys lines line_num') w.
Proof. repeat split. Qed.

(** [exit], whatever its arguments, ends the shell with status 0 at once:
    nothing is logged, no prompt follows and the later lines are not read. *)
Theorem exit_stops_main_loop
    (sys : os) (rest : list string) (lines : list tokens) (line_num : Z) (w : world) :
  dispatch sys ("exit" :: rest) w = Exited 0%Z w
  /\ main_loop sys (("exit" :: rest) :: lines) line_num w = Exited 0%Z w.
Proof. split; reflexivity. Qed.

Lemma cmd_help_loop_log (table : list fun_desc_t) : forall w,
  cmd_help_loop table w = Done tt (log w (map help_line table)).
Proof.
  induction table as [|d table IH]; intros w.
  - cbn. unfold ret, log. rewrite app_nil_r. now destruct w.
  - cbn [cmd_help_loop map]. unfold bind. rewrite emit_log, IH, log_log.
    reflexivity.
Qed.

(** [cmd_help] prints one line ["name - doc"] per entry, in the order of
    the table it walks, and returns 1 (not 0), whatever the tokens. *)
Theorem cmd_help_lists_table (table : list fun_desc_t) (t : tokens) (w : world) :
  cmd_help_loop table w = Done tt (log w (map help_line table))
  /\ cmd_help t w = Done 1%Z (log w (map help_line cmd_table))
  /\ List.length (map help_line cmd_table) = 4.
Proof.
  split; [apply cmd_help_loop_log|]. split; [|reflexivity].
  unfold cmd_help, bind. now rewrite cmd_help_loop_log.
Qed.

(** [cmd_pwd] returns 0 both when [getcwd] succeeds and when it fails; it
    prints the directory on standard output in the first case and the
    [perror] line on the error stream in the second.  Its tokens are
    ignored, and the loop goes on after either outcome. *)
Theorem cmd_pwd_returns_0
    (sys : os) (rest : list string) (lines : list tokens) (line_num : Z) (w : world) :
  let evs := match os_getcwd sys (w_cwd w) with
             | Some cwd => [Getcwd true; Stdout (cwd ++ newline)]
             | None => [Getcwd false;
                        Stderr ("getcwd() error" ++ ": " ++ os_strerror sys ++ newline)]
             end in
  cmd_pwd sys ("pwd" :: rest) w = Done 0%Z (log w evs)
  /\ main_loop sys (("pwd" :: rest) :: lines) line_num w
     = (line_num' <- next_prompt sys line_num ;;
        main_loop sys lines line_num') (log w evs).
Proof.
  intros evs.
  assert (H : cmd_pwd sys ("pwd" :: rest) w = Done 0%Z (log w evs)).
  { unfold evs, cmd_pwd, bind, getcwd, perror.
    destruct (os_getcwd sys (w_cwd w)); rewrite emit_log; unfold ret, log; cbn;
      now rewrite <- app_assoc. }
  split; [exact H|].
  cbn [main_loop]. unfold bind at 1.
  assert (Hd : dispatch sys ("pwd" :: rest) w = (cmd_pwd sys ("pwd" :: rest) ;; ret tt) w)
    by reflexivity.
  rewrite Hd. unfold bind at 1. rewrite H. reflexivity.
Qed.

(** ** Launching *)

Lemma child_log sys abs_cmd args w :
  child sys abs_cmd args w
  = Done tt (log w (child_events sys (w_cwd w) abs_cmd (argv_view args))).
Proof.
  unfold child, child_events.
  destruct (os_execv sys (w_cwd w) abs_cmd (argv_view args)).
  - reflexivity.
  - rewrite emit_log. unfold log. cbn. now rewrite <- app_assoc.
Qed.

Lemma run_cmd_launch_log sys t abs_cmd w :
  run_cmd_launch sys t abs_cmd w
  = if block_holds sys abs_cmd then
      match run_cmd_frame t (tokens_get_length t) abs_cmd with
      | Fault => Undefined w
      | Ok fr =>
          if target_holds (f_redir_target fr) then
            Done tt (log w (launch_events (os_fork sys)
                              (child_events sys (w_cwd w) abs_cmd
                                 (argv_view (f_args fr)))))
          else Undefined w
      end
    else Undefined w.
Proof.
  unfold run_cmd_launch. destruct (block_holds sys abs_cmd); [|reflexivity].
  unfold bind, lift.
  destruct (run_cmd_frame t (tokens_get_length t) abs_cmd) as [fr|]; [|reflexivity].
  destruct (target_holds (f_redir_target fr)); [|reflexivity].
  unfold fork, bind. rewrite emit_log. unfold ret, launch_events.
  destruct (os_fork sys); [|reflexivity].
  rewrite child_log, emit_log, !log_log, log_cwd. reflexivity.
Qed.

(** [run_cmd] on a non-empty line when PATH is set, in full. *)
Lemma run_cmd_trace sys cmd (rest : list string) raw w :
  os_getenv sys "PATH" = Some raw ->
  let ex := os_access sys (w_cwd w) in
  let probed := probes ex (candidates (segments ":" raw) cmd) in
  run_cmd sys (cmd :: rest) w
  = if paths_hold (List.length (segments ":" raw)) then
      match find ex (candidates (segments ":" raw) cmd) with
      | None =>
          Done tt (log w (Getenv "PATH" :: probed
                          ++ [Stderr (cmd ++ ": command not found" ++ newline)]))
      | Some abs_cmd =>
          if block_holds sys abs_cmd then
            match run_cmd_frame (cmd :: rest) (S (List.length rest)) abs_cmd with
            | Fault => Undefined (log w (Getenv "PATH" :: probed))
            | Ok fr =>
                if target_holds (f_redir_target fr) then
                  Done tt (log w (Getenv "PATH" :: probed
                                  ++ launch_events (os_fork sys)
                                       (child_events sys (w_cwd w) abs_cmd
                                          (argv_view (f_args fr)))))
                else Undefined (log w (Getenv "PATH" :: probed))
            end
          else Undefined (log w (Getenv "PATH" :: probed))
      end
    else Undefined (log w [Getenv "PATH"]).
Proof.
  intros Hp ex probed. rewrite (run_cmd_unfold sys cmd rest raw w Hp).
  fold ex. fold probed.
  destruct (paths_hold (List.length (segments ":" raw))); [|reflexivity].
  destruct (find ex (candidates (segments ":" raw) cmd)) as [abs|].
  - rewrite run_cmd_launch_log. cbn [tokens_get_length List.length].
    destruct (block_holds sys abs); [|reflexivity].
    destruct (run_cmd_frame (cmd :: rest) (S (List.length rest)) abs) as [fr|];
      [|reflexivity].
    destruct (target_holds (f_redir_target fr)); [|reflexivity].
    rewrite log_log, log_cwd. reflexivity.
  - rewrite log_log. reflexivity.
Qed.





(** ** What run_cmd touches *)

Lemma probes_on_search_path ex (dirs all : list string) cmd :
  incl dirs all ->
  Forall (on_search_path ex all cmd) (probes ex (candidates dirs cmd)).
Proof.
  induction dirs as [|d dirs IH]; intros Hi; cbn [candidates map probes].
  - constructor.
  - constructor.
    + cbn. split; [reflexivity|]. exists d. split; [apply Hi; now left|reflexivity].
    + destruct (ex (d ++ "/" ++ cmd)); [constructor|].
      apply IH. intros x Hx. apply Hi. now right.
Qed.

Lemma find_candidates_on_path ex (dirs : list string) cmd p :
  find ex (candidates dirs cmd) = Some p ->
  ex p = true /\ exists dir, In dir dirs /\ p = dir ++ "/" ++ cmd.
Proof.
  intros H. apply find_some in H as [Hin Hex]. split; [exact Hex|].
  unfold candidates in Hin. apply in_map_iff in Hin as (d & <- & Hd).
  exists d. split; [exact Hd|reflexivity].
Qed.

(** With PATH set, on every run of [run_cmd] that returns, every file it
    probed, and the file it handed to [execv], is [dir/cmd] for a
    directory [dir] of the search path: the first token is never tried as
    a path of its own, and what is executed was found to exist. *)
Theorem run_cmd_stays_on_search_path
    (sys : os) (cmd : string) (rest : list string) (raw : string) (w w' : world) :
  os_getenv sys "PATH" = Some raw ->
  run_cmd sys (cmd :: rest) w = Done tt w' ->
  Forall (on_search_path (os_access sys (w_cwd w)) (segments ":" raw) cmd)
    (new_events w w').
Proof.
  intros Hp. rewrite (run_cmd_trace sys cmd rest raw w Hp).
  pose proof (probes_on_search_path (os_access sys (w_cwd w))
                (segments ":" raw) (segments ":" raw) cmd (incl_refl _)) as Hprobes.
  destruct (paths_hold (List.length (segments ":" raw))); [|discriminate].
  destruct (find (os_access sys (w_cwd w)) (candidates (segments ":" raw) cmd))
    as [abs|] eqn:Hf.
  - apply find_candidates_on_path in Hf.
    destruct (block_holds sys abs); [|discriminate].
    destruct (run_cmd_frame (cmd :: rest) (S (List.length rest)) abs) as [fr|];
      [|discriminate].
    destruct (target_holds (f_redir_target fr)); [|discriminate].
    intros H. injection H as <-. rewrite new_events_log.
    constructor; [exact I|]. apply Forall_app. split; [exact Hprobes|].
    unfold launch_events, child_events.
    destruct (os_fork sys); [|repeat constructor].
    destruct (os_execv sys (w_cwd w) abs (argv_view (f_args fr)));
      repeat constructor; cbn; tauto.
  - intros H. injection H as <-. rewrite new_events_log.
    constructor; [exact I|]. apply Forall_app. split; [exact Hprobes|].
    repeat constructor.
Qed.

Lemma run_cmd_stays_on_search_path_witness :
  os_getenv os_a_b "PATH" = Some "/a:/b"
  /\ run_cmd os_a_b ["/b/cmd"] w0
     = Done tt (log w0 [Getenv "PATH"; Access "/a//b/cmd" false;
                        Access "/b//b/cmd" false;
                        Stderr ("/b/cmd: command not found" ++ newline)])
  /\ Forall (on_search_path (os_access os_a_b (w_cwd w0)) (segments ":" "/a:/b") "/b/cmd")
       (new_events w0 (log w0 [Getenv "PATH"; Access "/a//b/cmd" false;
                               Access "/b//b/cmd" false;
                               Stderr ("/b/cmd: command not found" ++ newline)])).
Proof.
  split; [reflexivity|]. split; [reflexivity|].
  apply (run_cmd_stays_on_search_path os_a_b "/b/cmd" [] "/a:/b" w0 _ eq_refl eq_refl).
Defined.

Example run_cmd_absolute_name :
  run_cmd os_a_b ["/b/cmd"] w0
  = Done tt (log w0 [Getenv "PATH"; Access "/a//b/cmd" false;
                     Access "/b//b/cmd" false;
                     Stderr ("/b/cmd: command not found" ++ newline)]).
Proof. reflexivity. Qed.

(** ** Who ends the shell *)

Lemma get_first_abs_path_loop_no_exit sys paths cmd : forall n i w st w',
  get_first_abs_path_loop sys paths cmd n i w <> Exited st w'.
Proof.
  induction n as [|n IH]; intros i w st w'; cbn [get_first_abs_path_loop].
  - discriminate.
  - destruct (load paths i); try discriminate.
    unfold bind. rewrite access_log.
    destruct (os_access sys (w_cwd w) _); [discriminate|apply IH].
Qed.

Lemma run_cmd_no_exit sys t w st w' : run_cmd sys t w <> Exited st w'.
Proof.
  unfold run_cmd. destruct t as [|c t]; [discriminate|].
  cbn [tokens_get_length List.length Nat.ltb Nat.leb tokens_get_token nth_error].
  unfold bind, lift.
  destruct (get_env_paths sys (repeat Uninit 32) w) as [[paths n] w1|st1 w1|w1] eqn:E1.
  - destruct (paths_hold n); [|discriminate].
    destruct (get_first_abs_path sys paths n c w1) as [[abs|] w2|st2 w2|w2] eqn:E2.
    + destruct (block_holds sys abs); [|discriminate].
      destruct (run_cmd_frame (c :: t) (S (List.length t)) abs) as [fr|]; [|discriminate].
      destruct (target_holds (f_redir_target fr)); [|discriminate].
      unfold fork, bind. rewrite emit_log. unfold ret.
      destruct (os_fork sys); [|discriminate].
      rewrite child_log. discriminate.
    + discriminate.
    + exfalso. revert E2. apply get_first_abs_path_loop_no_exit.
    + discriminate.
  - exfalso. revert E1. unfold get_env_paths, getenv, bind. rewrite emit_log.
    unfold ret, lift.
    destruct (get_env_paths_of (os_getenv sys "PATH") (repeat Uninit 32)); discriminate.
  - discriminate.
Qed.

(** Evaluates the index that [main] converts to reach the table entry. *)
Ltac index_of_entry :=
  repeat match goal with
         | |- context [Pos.to_nat ?p] =>
             let n := eval vm_compute in (Pos.to_nat p) in
             change (Pos.to_nat p) with n
         end.

(** The shell process calls [exit] for the built-in [exit] only: if the
    dispatch of a line reaches a call of [exit] in the shell, the first
    token is ["exit"], the status is 0 and nothing was logged.  [run_cmd]
    calls [exit] in the child only (line 221), and the other built-ins do
    not call it.  Lines whose run is undefined are not spoken of. *)
Theorem dispatch_exits_only_on_exit
    (sys : os) (t : tokens) (w : world) (status : Z) (w' : world) :
  dispatch sys t w = Exited status w' ->
  tokens_get_token t 0 = Some "exit" /\ status = 0%Z /\ w' = w.
Proof.
  unfold dispatch, lookup, cmd_table.
  destruct (tokens_get_token t 0) as [name|]; cbn [lookup_from fd_cmd].
  - destruct (String.eqb_spec "pwd" name) as [<-|_].
    { cbn. unfold bind, cmd_pwd, bind, getcwd.
      destruct (os_getcwd sys (w_cwd w)); cbn; discriminate. }
    destruct (String.eqb_spec "cd" name) as [<-|_].
    { cbn. index_of_entry. cbn. unfold bind, cmd_cd, bind, chdir.
      destruct (tokens_get_token t 1) as [d|]; [destruct (os_chdir sys (w_cwd w) d)|];
        cbn; discriminate. }
    destruct (String.eqb_spec "?" name) as [<-|_].
    { cbn. index_of_entry. cbn [nth_error fd_fun call].
      unfold bind, cmd_help, bind. rewrite cmd_help_loop_log. discriminate. }
    destruct (String.eqb_spec "exit" name) as [<-|_].
    { cbn. index_of_entry. cbn. intros H. injection H as <- <-. auto. }
    cbn. intros H. exfalso. revert H. apply run_cmd_no_exit.
  - cbn. intros H. exfalso. revert H. apply run_cmd_no_exit.
Qed.

Lemma dispatch_exits_only_on_exit_witness :
  dispatch os_a_b ["exit"; "3"] w0 = Exited 0%Z w0
  /\ tokens_get_token ["exit"; "3"] 0 = Some "exit" /\ 0%Z = 0%Z /\ w0 = w0.
Proof.
  split; [reflexivity|].
  apply (dispatch_exits_only_on_exit os_a_b ["exit"; "3"] w0 0%Z w0 eq_refl).
Defined.

(** ** Base names *)

Lemma split_on_cons delim s : exists seg segs, split_on delim s = seg :: segs.
Proof.
  destruct s as [|c s]; cbn [split_on]; [eauto|].
  destruct (is_delim delim c); [eauto|].
  destruct (split_on delim s); eauto.
Qed.

Lemma split_on_join delim a c b :
  is_delim delim c = true ->
  split_on delim (a ++ String c b) = (split_on delim a ++ split_on delim b)%list.
Proof.
  intros Hc. induction a as [|x a IH]; cbn [String.append split_on].
  - now rewrite Hc.
  - rewrite IH. destruct (is_delim delim x); [reflexivity|].
    destruct (split_on_cons delim a) as (seg & segs & ->). reflexivity.
Qed.

Lemma segments_join delim a c b :
  is_delim delim c = true ->
  segments delim (a ++ String c b) = (segments delim a ++ segments delim b)%list.
Proof.
  intros Hc. unfold segments. now rewrite (split_on_join _ _ _ _ Hc), filter_app.
Qed.

Lemma last_map_app_ptr (l : list string) name d :
  last (map Ptr (l ++ [name])) d = Ptr name.
Proof.
  induction l as [|x l IH]; [reflexivity|].
  change (map Ptr ((x :: l) ++ [name])) with (Ptr x :: map Ptr (l ++ [name])).
  rewrite last_cons. destruct l; [reflexivity|]. 
  change (map Ptr ((s :: l) ++ [name])) with (Ptr s :: map Ptr (l ++ [name])) in *.
  rewrite last_cons in *. 
  destruct (map Ptr (l ++ [name])) eqn:E.
  - destruct l; discriminate.
  - rewrite !last_cons in *. exact IH.
Qed.

Lemma get_last_path_token_join (dir name : string) :
  nonempty name = true -> has_delim "/" name = false ->
  get_last_path_token (dir ++ "/" ++ name)
  = match segments "/" dir with
    | [] => Uninit
    | _ :: _ => Ptr name
    end.
Proof.
  intros Hn Hd. rewrite get_last_path_token_spec.
  change (dir ++ "/" ++ name) with (dir ++ String "/" name).
  rewrite (segments_join "/" dir "/" name eq_refl).
  assert (Hs : segments "/" name = [name]).
  { unfold segments. rewrite (split_on_no_delim _ _ Hd). cbn. now rewrite Hn. }
  rewrite Hs. destruct (segments "/" dir) as [|s l]; [reflexivity|].
  cbn [app tl]. apply last_map_app_ptr.
Qed.

(** For a path [dir/name] with a non-empty, slash-free [name] (what
    [get_first_abs_path] builds from an ordinary command name),
    [get_last_path_token] returns [name] when [dir] has a segment of its
    own, and an uninitialised pointer when [dir] is empty or made of
    slashes only. *)
Theorem get_last_path_token_dir_name (dir name : string) :
  nonempty name = true -> has_delim "/" name = false ->
  get_last_path_token (dir ++ "/" ++ name)
  = match segments "/" dir with
    | [] => Uninit
    | _ :: _ => Ptr name
    end.
Proof. apply get_last_path_token_join. Qed.

Lemma get_last_path_token_dir_name_witness :
  nonempty "wc" = true /\ has_delim "/" "wc" = false
  /\ get_last_path_token ("/usr/bin/" ++ "/" ++ "wc") = Ptr "wc"
  /\ get_last_path_token ("/" ++ "/" ++ "wc") = Uninit.
Proof.
  split; [reflexivity|]. split; [reflexivity|]. split.
  - apply (get_last_path_token_dir_name "/usr/bin/" "wc" eq_refl eq_refl).
  - apply (get_last_path_token_dir_name "/" "wc" eq_refl eq_refl).
Defined.

(** ** The search path array *)





(** [get_env_paths] does not bound the number of entries: it stores
    entry [k] in cell [k] for every entry of the search path, the 33rd
    and later ones included, and leaves the cells after the last entry
    unwritten.  [run_cmd], which hands it the 32 cells of [paths], is
    undefined from there on when there are more than 32 entries. *)
Theorem get_env_paths_is_unbounded
    (sys : os) (raw cmd : string) (rest : list string) (w : world) :
  os_getenv sys "PATH" = Some raw ->
  exists paths,
    get_env_paths sys (repeat Uninit 32) w
    = Done (paths, List.length (segments ":" raw)) (log w [Getenv "PATH"])
    /\ (forall k dir, nth_error (segments ":" raw) k = Some dir ->
                      load paths k = Ptr dir)
    /\ (forall k, List.length (segments ":" raw) <= k -> load paths k = Uninit)
    /\ (32 < List.length (segments ":" raw) ->
        run_cmd sys (cmd :: rest) w = Undefined (log w [Getenv "PATH"])).
Proof.
  intros H. set (dirs := segments ":" raw).
  exists (cells dirs (32 - List.length dirs)).
  split; [apply (get_env_paths_set sys raw w H)|]. unfold cells, load.
  split; [|split].
  - intros k dir Hk.
    assert (Hlt : k < List.length dirs) by (apply nth_error_Some; congruence).
    rewrite app_nth1 by (rewrite length_map; exact Hlt).
    rewrite (nth_indep _ Uninit (Ptr dir)) by (rewrite length_map; exact Hlt).
    rewrite map_nth. f_equal. now apply nth_error_nth.
  - intros k Hk. rewrite app_nth2 by (rewrite length_map; exact Hk).
    rewrite length_map.
    destruct (Nat.lt_ge_cases (k - List.length dirs) (32 - List.length dirs)) as [Hlt|Hge].
    + now rewrite nth_repeat_lt.
    + apply nth_overflow. now rewrite repeat_length.
  - intros Hl. rewrite (run_cmd_unfold sys cmd rest raw w H). fold dirs.
    unfold paths_hold. now rewrite (proj2 (Nat.leb_gt _ _) Hl).
Qed.

Lemma get_env_paths_is_unbounded_witness :
  os_getenv (demo_os (Some (numbered_path 40)) [] [] []) "PATH" = Some (numbered_path 40)
  /\ nth_error (segments ":" (numbered_path 40)) 39 = Some "/d39"
  /\ 32 < List.length (segments ":" (numbered_path 40))
  /\ exists paths,
       get_env_paths (demo_os (Some (numbered_path 40)) [] [] []) (repeat Uninit 32) w0
       = Done (paths, List.length (segments ":" (numbered_path 40)))
              (log w0 [Getenv "PATH"])
       /\ load paths 39 = Ptr "/d39"
       /\ run_cmd (demo_os (Some (numbered_path 40)) [] [] []) ["ls"; "-l"] w0
          = Undefined (log w0 [Getenv "PATH"]).
Proof.
  assert (Hn : nth_error (segments ":" (numbered_path 40)) 39 = Some "/d39")
    by (vm_compute; reflexivity).
  assert (Hl : 32 < List.length (segments ":" (numbered_path 40)))
    by (vm_compute; repeat constructor).
  split; [reflexivity|]. split; [exact Hn|]. split; [exact Hl|].
  destruct (get_env_paths_is_unbounded (demo_os (Some (numbered_path 40)) [] [] [])
              (numbered_path 40) "ls" ["-l"] w0 eq_refl)
    as (paths & Hg & Hk & _ & Hu).
  exists paths. split; [exact Hg|]. split; [exact (Hk 39 "/d39" Hn)|exact (Hu Hl)].
Defined.

(** ** Argument vectors *)

Lemma no_redir_from_distinct (t : tokens) :
  Forall (fun token => token <> "<" /\ token <> ">") t -> no_redir t = true.
Proof.
  induction 1 as [|x t [Hlt Hgt] _ IH]; [reflexivity|].
  cbn [no_redir forallb]. fold (no_redir t). rewrite IH, andb_true_r.
  unfold is_redir.
  destruct (String.eqb_spec ">" x); [congruence|].
  destruct (String.eqb_spec "<" x); [congruence|reflexivity].
Qed.

(** Only a token that is exactly ["<"] or [">"] is an operator: on a line
    without such a token (tokens like [">>"] or ["2>"] may occur) every
    token becomes an argument, in order, followed by the terminator, and
    neither redirection buffer is written. *)
Theorem get_args_without_operator (t : tokens) (redir_syn redir_target : cbuf) :
  Forall (fun token => token <> "<" /\ token <> ">") t ->
  get_args t (tokens_get_length t) (repeat Uninit (tokens_get_length t))
    redir_syn redir_target
  = Ok ((map Ptr t ++ [Null])%list, redir_syn, redir_target)
  /\ argv_view (map Ptr t ++ [Null])%list = Argv t.
Proof.
  intros H. split; [|apply argv_view_terminated].
  apply get_args_plain. now apply no_redir_from_distinct.
Qed.

Lemma get_args_without_operator_witness :
  Forall (fun token => token <> "<" /\ token <> ">") ["echo"; "hi"; ">>"; "log"]
  /\ get_args ["echo"; "hi"; ">>"; "log"] 4 (repeat Uninit 4) None None
     = Ok ([Ptr "echo"; Ptr "hi"; Ptr ">>"; Ptr "log"; Null], None, None).
Proof.
  assert (H : Forall (fun token => token <> "<" /\ token <> ">")
                ["echo"; "hi"; ">>"; "log"]).
  { repeat constructor; discriminate. }
  split; [exact H|].
  apply (proj1 (get_args_without_operator ["echo"; "hi"; ">>"; "log"] None None H)).
Defined.

Lemma get_args_terminator_past_end_witness :
  no_redir ["ls"; "-l"] = true
  /\ exists args,
       get_args ["ls"; "-l"] (tokens_get_length ["ls"; "-l"])
         (repeat Uninit (tokens_get_length ["ls"; "-l"])) None None
       = Ok (args, None, None)
       /\ load args (tokens_get_length ["ls"; "-l"]) = Null
       /\ List.length args = S (tokens_get_length ["ls"; "-l"]).
Proof.
  split; [reflexivity|].
  apply (get_args_terminator_past_end ["ls"; "-l"] eq_refl).
Defined.

(** A line that starts with a redirection operator and still resolves (a
    file named [">"] on the search path): the terminator that [get_args]
    stored in cell 0 is overwritten by the base name (line 211), so
    [execv] is handed a vector with no terminator in its written cells. *)
Theorem run_cmd_frame_leading_redirect
    (op target : string) (rest : list string) (abs_cmd base : string) :
  is_redir op = true ->
  get_last_path_token abs_cmd = Ptr base ->
  exists fr,
    run_cmd_frame (op :: target :: rest) (S (S (List.length rest))) abs_cmd = Ok fr
    /\ f_args fr = (Ptr base :: repeat Uninit (S (List.length rest)))%list
    /\ argv_view (f_args fr) = ArgvIndet [base].
Proof.
  intros Hop Hb.
  pose proof (run_cmd_frame_redirect [] op target rest abs_cmd eq_refl Hop) as H.
  cbn [app map List.length] in H. rewrite H, Hb. eexists.
  split; [reflexivity|]. split; reflexivity.
Qed.

Lemma run_cmd_frame_leading_redirect_witness :
  is_redir ">" = true
  /\ get_last_path_token "/bin/>" = Ptr ">"
  /\ exists fr,
       run_cmd_frame [">"; "out.txt"] 2 "/bin/>" = Ok fr
       /\ f_args fr = (Ptr ">" :: repeat Uninit 1)%list
       /\ argv_view (f_args fr) = ArgvIndet [">"].
Proof.
  split; [reflexivity|]. split; [reflexivity|].
  apply (run_cmd_frame_leading_redirect ">" "out.txt" [] "/bin/>" ">" eq_refl eq_refl).
Defined.

(** ** Resolution past the filled cells *)

Lemma log_nil w : log w [] = w.
Proof. unfold log. rewrite app_nil_r. now destruct w. Qed.

Lemma get_first_abs_path_loop_past sys cmd k : forall (dirs done : list string) w,
  misses (os_access sys (w_cwd w)) cmd dirs ->
  get_first_abs_path_loop sys (map Ptr done ++ map Ptr dirs)%list cmd
    (List.length dirs + S k) (List.length done) w
  = Undefined (log w (missed cmd dirs)).
Proof.
  induction dirs as [|d dirs IH]; intros done w Hm.
  - cbn [List.length Nat.add get_first_abs_path_loop map missed].
    unfold load. rewrite app_nil_r, nth_overflow by (rewrite length_map; lia).
    now rewrite log_nil.
  - inversion Hm as [|? ? Hd Hdirs]; subst.
    cbn [List.length Nat.add get_first_abs_path_loop map missed].
    rewrite load_cells. unfold bind. rewrite access_log. cbn [String.append].
    cbn [String.append] in Hd. rewrite Hd.
    replace (S (List.length done)) with (List.length (done ++ [d])%list)
      by (rewrite length_app; simpl; lia).
    replace (map Ptr done ++ Ptr d :: map Ptr dirs)%list
      with (map Ptr (done ++ [d]) ++ map Ptr dirs)%list
      by (now rewrite map_app, <- app_assoc).
    rewrite IH by exact Hdirs. now rewrite log_log.
Qed.

(** [get_first_abs_path] trusts [env_path_len]: when it exceeds the number
    of filled cells and no candidate exists, the loop goes on to a cell
    that was never written and hands it to [strlen]. *)
Theorem get_first_abs_path_past_filled
    (sys : os) (dirs : list string) (env_path_len : nat) (cmd : string) (w : world) :
  List.length dirs < env_path_len ->
  misses (os_access sys (w_cwd w)) cmd dirs ->
  get_first_abs_path sys (map Ptr dirs) env_path_len cmd w
  = Undefined (log w (missed cmd dirs)).
Proof.
  intros Hl Hm. unfold get_first_abs_path.
  replace env_path_len
    with (List.length dirs + S (env_path_len - S (List.length dirs))) by lia.
  apply (get_first_abs_path_loop_past sys cmd _ dirs [] w Hm).
Qed.

Lemma get_first_abs_path_past_filled_witness :
  List.length ["/a"; "/b"] < 3
  /\ misses (os_access os_a_b (w_cwd w0)) "ls" ["/a"; "/b"]
  /\ get_first_abs_path os_a_b (map Ptr ["/a"; "/b"]) 3 "ls" w0
     = Undefined (log w0 (missed "ls" ["/a"; "/b"])).
Proof.
  assert (Hm : misses (os_access os_a_b (w_cwd w0)) "ls" ["/a"; "/b"]).
  { repeat constructor. }
  split; [simpl; lia|]. split; [exact Hm|].
  apply (get_first_abs_path_past_filled os_a_b ["/a"; "/b"] 3 "ls" w0);
    [simpl; lia|exact Hm].
Defined.

(** ** Prompts *)

Lemma main_loop_empty_lines sys k : forall n w,
  os_isatty sys = true ->
  (n + Z.of_nat k <= INT_MAX)%Z ->
  main_loop sys (repeat [] k) n w = Done 0%Z (log w (prompts_after n k)).
Proof.
  induction k as [|k IH]; intros n w Ht Hn.
  - cbn. unfold ret. now rewrite log_nil.
  - cbn [repeat main_loop prompts_after]. unfold bind at 1.
    change (dispatch sys [] w) with (Done tt w).
    unfold bind, next_prompt. rewrite Ht.
    destruct (Z.ltb_spec n INT_MAX) as [_|Hge]; [|lia].
    unfold bind. rewrite emit_log. unfold ret.
    rewrite IH by (auto; lia). now rewrite log_log.
Qed.

Lemma main_loop_empty_lines_quiet sys k : forall n w,
  os_isatty sys = false ->
  main_loop sys (repeat [] k) n w = Done 0%Z w.
Proof.
  induction k as [|k IH]; intros n w Ht; [reflexivity|].
  cbn [repeat main_loop]. unfold bind.
  change (dispatch sys [] w) with (Done tt w).
  unfold next_prompt. rewrite Ht. now apply IH.
Qed.

(** On a terminal, [main] prints the prompt ["0: "] before the first line
    and, after each line, the prompt with the next number; for [k] empty
    lines the whole output is the prompts 0 to [k] and [main] returns 0.
    Off a terminal the same input prints nothing. *)
Theorem main_prompts_count_lines (sys : os) (k : nat) (w : world) :
  (Z.of_nat k <= INT_MAX)%Z ->
  main sys (repeat [] k) w
  = Done 0%Z (log w (if os_isatty sys then prompt 0 :: prompts_after 0 k else [])).
Proof.
  intros Hk. unfold main.
  destruct (os_isatty sys) eqn:Ht.
  - unfold bind. rewrite emit_log.
    rewrite (main_loop_empty_lines sys k 0%Z _ Ht) by lia.
    now rewrite log_log.
  - unfold bind, ret. rewrite log_nil.
    now apply main_loop_empty_lines_quiet.
Qed.

Lemma main_prompts_count_lines_witness :
  (Z.of_nat 2 <= INT_MAX)%Z
  /\ main (with_fork_isatty os_a_b true true) [[]; []] w0
     = Done 0%Z (log w0 [Stdout "0: "; Stdout "1: "; Stdout "2: "]).
Proof.
  split; [vm_compute; discriminate|].
  apply (main_prompts_count_lines (with_fork_isatty os_a_b true true) 2 w0).
  vm_compute. discriminate.
Defined.

(** ** Ordinary commands *)




(** The same line where the resolved path has 24 bytes: its NUL is the
    25th byte of a block with room for 24, and the run is undefined. *)
Example run_cmd_path_of_24_bytes :
  String.length ("/a" ++ "/" ++ letters 21) = 24
  /\ run_cmd (demo_os (Some "/a") ["/a/" ++ letters 21] ["/a/" ++ letters 21] [])
       [letters 21] w0
     = Undefined (log w0 [Getenv "PATH"; Access ("/a/" ++ letters 21) true]).
Proof. split; reflexivity. Qed.

(** ** cd in the loop *)

(** [cd] never stops the loop and never prints: whether the change
    succeeds, fails or has no argument, the line logs the one [chdir]
    call (tokens after the first argument are ignored) and the loop goes on
    to the prompt and the next line; after a failure the working directory
    is the one before. *)
Theorem cd_keeps_loop_running
    (sys : os) (args : list string) (lines : list tokens) (line_num : Z) (w : world) :
  exists ok cwd',
    main_loop sys (("cd" :: args) :: lines) line_num w
    = (line_num' <- next_prompt sys line_num ;;
       main_loop sys lines line_num')
        {| w_cwd := cwd'; w_trace := w_trace w ++ [Chdir (hd_error args) ok] |}
    /\ (ok = true \/ cwd' = w_cwd w).
Proof.
  cbn [main_loop]. unfold bind at 1.
  assert (Hd : dispatch sys ("cd" :: args) w = (cmd_cd sys ("cd" :: args) ;; ret tt) w)
    by reflexivity.
  rewrite Hd. unfold bind at 1. unfold cmd_cd, bind at 1, chdir.
  replace (tokens_get_token ("cd" :: args) 1) with (hd_error args)
    by (destruct args; reflexivity).
  destruct (hd_error args) as [d|].
  - destruct (os_chdir sys (w_cwd w) d) as [c|].
    + exists true, c. split; [reflexivity|now left].
    + exists false, (w_cwd w). split; [reflexivity|now right].
  - exists false, (w_cwd w). split; [reflexivity|now right].
Qed.
